(** * The simulation engine of the side-scrolling game ([src/game.js])

    A shallow embedding of the game's engine: the module-level state
    ([gameState], [bird], [thrones]), the session reset [setup], the spawn
    scheduler ([getSpawnInterval], [spawnThrone]), the per-frame step
    [update] with its backwards removal loop, [checkCollisions], and the
    control functions [jump] and [endGame].

    Conventions of the embedding.
    - JavaScript numbers are modelled as exact rationals ([Q]); the score,
      which the code only ever resets to 0 and increments, is a [Z], and
      timer delays (milliseconds) are [Z] as well.
    - The three mutable globals are gathered in one record, [World], that
      every function takes and returns.
    - Calls into the host (DOM class list, audio elements, [setTimeout]) are
      appended to an output trace, in call order.
    - [Math.random()] is an input: the functions that draw take the drawn
      number as an argument.
    - Reading [thrones[i]] outside the array yields [undefined] in
      JavaScript and the following property access throws; the loop that
      indexes the array therefore lives in [option], [None] standing for the
      uncaught exception.
    - The source file holds two revisions of the script. Their engine code
      is the same; the later one adds sounds and a title screen. The host
      calls of [jump] and [endGame] recorded here are those of the first. *)

From Stdlib Require Import ZArith QArith Lia Lqa Bool.
From stdpp Require Import base option list.

Local Open Scope Q_scope.

(** * Part I: the engine *)

(** ** Number comparisons of the source, as booleans *)

(** [a < b] *)
Definition Qltb (a b : Q) : bool := negb (Qle_bool b a).

(** [a <= b] *)
Definition Qleb (a b : Q) : bool := Qle_bool a b.

(** ** Constants (game.js, "Game constants") *)

Definition CANVAS_WIDTH : Q := 1920.
Definition CANVAS_HEIGHT : Q := 1080.
Definition GRAVITY : Q := 0.5.
Definition JUMP_STRENGTH : Q := -8.
Definition INITIAL_THRONE_SPEED : Q := 12.
Definition INITIAL_SPAWN_INTERVAL : Z := 3000.
Definition THRONE_GAP : Q := 800.
Definition THRONE_WIDTH : Q := 360.
Definition SPEED_INCREASE_RATE : Q := 0.1.

(** ** Data *)

Record GameState := mkGameState {
  running : bool;
  gameOver : bool;
  score : Z;
  currentThroneSpeed : Q;
  musicStarted : bool
}.

Module Bird.
Record t := mk {
  x : Q;
  y : Q;
  width : Q;
  height : Q;
  velocity : Q
}.
End Bird.

Module Throne.
Record t := mk {
  x : Q;
  y : Q;
  width : Q;
  height : Q;
  passed : bool
}.
End Throne.

(** Calls into the host, recorded in call order. *)
Inductive Effect :=
| OverlayHide                 (* gameOverScreen.classList.add('hidden') *)
| OverlayShow                 (* gameOverScreen.classList.remove('hidden') *)
| MusicPlay                   (* backgroundMusic.play() *)
| MusicPause                  (* backgroundMusic.pause() *)
| JumpSoundPlay               (* jumpSound.currentTime = 0; jumpSound.play() *)
| SetTimeout (ms : Z).        (* setTimeout(spawnThrone, ms) *)

Record World := mkWorld {
  gameState : GameState;
  bird : Bird.t;
  thrones : list Throne.t;
  trace : list Effect
}.

(** Field writes. *)

Definition set_running (v : bool) (g : GameState) : GameState :=
  mkGameState v (gameOver g) (score g) (currentThroneSpeed g) (musicStarted g).
Definition set_gameOver (v : bool) (g : GameState) : GameState :=
  mkGameState (running g) v (score g) (currentThroneSpeed g) (musicStarted g).
Definition set_score (v : Z) (g : GameState) : GameState :=
  mkGameState (running g) (gameOver g) v (currentThroneSpeed g) (musicStarted g).
Definition set_currentThroneSpeed (v : Q) (g : GameState) : GameState :=
  mkGameState (running g) (gameOver g) (score g) v (musicStarted g).
Definition set_musicStarted (v : bool) (g : GameState) : GameState :=
  mkGameState (running g) (gameOver g) (score g) (currentThroneSpeed g) v.

Definition set_bird_y (v : Q) (b : Bird.t) : Bird.t :=
  Bird.mk (Bird.x b) v (Bird.width b) (Bird.height b) (Bird.velocity b).
Definition set_bird_velocity (v : Q) (b : Bird.t) : Bird.t :=
  Bird.mk (Bird.x b) (Bird.y b) (Bird.width b) (Bird.height b) v.

Definition set_throne_x (v : Q) (t : Throne.t) : Throne.t :=
  Throne.mk v (Throne.y t) (Throne.width t) (Throne.height t) (Throne.passed t).
Definition set_throne_passed (v : bool) (t : Throne.t) : Throne.t :=
  Throne.mk (Throne.x t) (Throne.y t) (Throne.width t) (Throne.height t) v.

Definition with_gameState (f : GameState -> GameState) (w : World) : World :=
  mkWorld (f (gameState w)) (bird w) (thrones w) (trace w).
Definition with_bird (f : Bird.t -> Bird.t) (w : World) : World :=
  mkWorld (gameState w) (f (bird w)) (thrones w) (trace w).
Definition set_thrones (l : list Throne.t) (w : World) : World :=
  mkWorld (gameState w) (bird w) l (trace w).
Definition emit (e : Effect) (w : World) : World :=
  mkWorld (gameState w) (bird w) (thrones w) (trace w ++ [e]).

(** The state the script starts in (the initialisers of [gameState], [bird]
    and [thrones]). *)
Definition initial : World :=
  mkWorld
    (mkGameState false false 0 INITIAL_THRONE_SPEED false)
    (Bird.mk 400 (CANVAS_HEIGHT / 2) 360 203 0)
    []
    [].

(** ** [setup] *)

Definition setup (w : World) : World :=
  let w := with_gameState (set_running true) w in
  let w := with_gameState (set_gameOver false) w in
  let w := with_gameState (set_score 0) w in
  let w := with_gameState (set_currentThroneSpeed INITIAL_THRONE_SPEED) w in
  let w := with_bird (set_bird_y (CANVAS_HEIGHT / 2)) w in
  let w := with_bird (set_bird_velocity 0) w in
  let w := set_thrones [] w in
  let w := emit OverlayHide w in
  let w := if musicStarted (gameState w) then emit MusicPlay w else w in
  emit (SetTimeout 2000) w.

(** ** Spawning *)

Definition getSpawnInterval (w : World) : Z :=
  if (score (gameState w) <? 10)%Z then INITIAL_SPAWN_INTERVAL
  else if (score (gameState w) <? 20)%Z then 2500%Z
  else if (score (gameState w) <? 50)%Z then 2000%Z
  else if (score (gameState w) <? 100)%Z then 1500%Z
  else 1000%Z.

(** The gap position computed from the number [rnd] that [Math.random()]
    returned. *)
Definition minGapY : Q := 400.
Definition maxGapY : Q := CANVAS_HEIGHT - THRONE_GAP - 400.
Definition gapY (rnd : Q) : Q := rnd * (maxGapY - minGapY) + minGapY.

Definition top_throne (rnd : Q) : Throne.t :=
  Throne.mk CANVAS_WIDTH 0 THRONE_WIDTH (gapY rnd) false.
Definition bottom_throne (rnd : Q) : Throne.t :=
  Throne.mk CANVAS_WIDTH (gapY rnd + THRONE_GAP) THRONE_WIDTH
            (CANVAS_HEIGHT - (gapY rnd + THRONE_GAP)) false.

Definition spawnThrone (rnd : Q) (w : World) : World :=
  if negb (running (gameState w)) || gameOver (gameState w) then w
  else
    let w := set_thrones (thrones w ++ [top_throne rnd]) w in
    let w := set_thrones (thrones w ++ [bottom_throne rnd]) w in
    let spawnInterval := getSpawnInterval w in
    emit (SetTimeout spawnInterval) w.

(** ** Ending the session *)

Definition endGame (w : World) : World :=
  if gameOver (gameState w) then w
  else
    let w := with_gameState (set_gameOver true) w in
    let w := with_gameState (set_running false) w in
    let w := emit OverlayShow w in
    emit MusicPause w.

(** ** Collision detection *)

Definition overlaps (b : Bird.t) (throne : Throne.t) : bool :=
  Qltb (Bird.x b) (Throne.x throne + Throne.width throne)
  && Qltb (Throne.x throne) (Bird.x b + Bird.width b)
  && Qltb (Bird.y b) (Throne.y throne + Throne.height throne)
  && Qltb (Throne.y throne) (Bird.y b + Bird.height b).

(** [for (const throne of thrones)] with its early [return]. *)
Fixpoint checkCollisions_from (l : list Throne.t) (w : World) : World :=
  match l with
  | [] => w
  | throne :: rest =>
      if overlaps (bird w) throne then endGame w
      else checkCollisions_from rest w
  end.

Definition checkCollisions (w : World) : World :=
  checkCollisions_from (thrones w) w.

(** ** The frame step *)

(** One iteration of the loop over [thrones], at index [i]. The object
    [throne] is shared with the array, so each write to it is a write to
    [thrones[i]]. *)
Definition update_body (i : nat) (w : World) : option World :=
  match thrones w !! i with
  | None => None
  | Some throne =>
      let throne :=
        set_throne_x (Throne.x throne - currentThroneSpeed (gameState w)) throne in
      let w := set_thrones (<[i := throne]> (thrones w)) w in
      let '(throne, w) :=
        if negb (Throne.passed throne)
           && Qltb (Throne.x throne + Throne.width throne) (Bird.x (bird w))
        then
          let throne := set_throne_passed true throne in
          let w := set_thrones (<[i := throne]> (thrones w)) w in
          (throne,
           if (i mod 2 =? 0)%nat
           then with_gameState (set_score (score (gameState w) + 1)) w
           else w)
        else (throne, w) in
      Some (if Qltb (Throne.x throne + Throne.width throne) 0
            then set_thrones (delete i (thrones w)) w
            else w)
  end.

(** [for (let i = n - 1; i >= 0; i--)] *)
Fixpoint update_loop (n : nat) (w : World) : option World :=
  match n with
  | O => Some w
  | S i =>
      match update_body i w with
      | None => None
      | Some w' => update_loop i w'
      end
  end.

Definition groundY : Q := CANVAS_HEIGHT - 120.
Definition ceilingY : Q := 120.

Definition update (w : World) : option World :=
  if negb (running (gameState w)) || gameOver (gameState w) then Some w
  else
    let w := with_bird (fun b => set_bird_velocity (Bird.velocity b + GRAVITY) b) w in
    let w := with_bird (fun b => set_bird_y (Bird.y b + Bird.velocity b) b) w in
    let w :=
      with_gameState
        (fun g => set_currentThroneSpeed
                    (INITIAL_THRONE_SPEED + inject_Z (score g) * SPEED_INCREASE_RATE) g)
        w in
    match update_loop (length (thrones w)) w with
    | None => None
    | Some w =>
        let w := checkCollisions w in
        Some (if Qleb groundY (Bird.y (bird w) + Bird.height (bird w))
                 || Qleb (Bird.y (bird w)) ceilingY
              then endGame w
              else w)
    end.

(** ** Control *)

Definition jump (w : World) : World :=
  let w :=
    if negb (musicStarted (gameState w))
    then with_gameState (set_musicStarted true) (emit MusicPlay w)
    else w in
  if negb (running (gameState w)) then setup w
  else if gameOver (gameState w) then setup w
  else
    let w := with_bird (set_bird_velocity JUMP_STRENGTH) w in
    emit JumpSoundPlay w.

(** ** The host's calls *)

(** What the host can do to the engine: run a frame ([gameLoop] calls
    [update]), deliver a key press or click ([jump]), or fire a spawn timer,
    [rnd] being what [Math.random()] returns during that call. *)
Inductive Event :=
| Tick
| Jump
| TimerFires (rnd : Q).

Definition step (e : Event) (w : World) : option World :=
  match e with
  | Tick => update w
  | Jump => Some (jump w)
  | TimerFires rnd => Some (spawnThrone rnd w)
  end.

Fixpoint run (es : list Event) (w : World) : option World :=
  match es with
  | [] => Some w
  | e :: es' =>
      match step e w with
      | None => None
      | Some w' => run es' w'
      end
  end.

(** A draw of [Math.random()] lies in [0, 1). *)
Definition is_draw (rnd : Q) : Prop := 0 <= rnd /\ rnd < 1.


(** * Part II: the vocabulary of the specification *)

(** ** The lifecycle, read off the two flags *)

Definition Running (w : World) : Prop :=
  running (gameState w) = true /\ gameOver (gameState w) = false.
Definition Idle (w : World) : Prop :=
  running (gameState w) = false /\ gameOver (gameState w) = false.
Definition GameOver (w : World) : Prop :=
  running (gameState w) = false /\ gameOver (gameState w) = true.

(** ** The frame step as a function on lists *)

(** What one iteration of the loop does to the obstacle it visits. *)
Definition advance (v bx : Q) (t : Throne.t) : Throne.t :=
  let t := set_throne_x (Throne.x t - v) t in
  if negb (Throne.passed t) && Qltb (Throne.x t + Throne.width t) bx
  then set_throne_passed true t
  else t.

Definition offscreen (t : Throne.t) : bool :=
  Qltb (Throne.x t + Throne.width t) 0.

(** The obstacle is flagged in this iteration. *)
Definition crossing (v bx : Q) (t : Throne.t) : bool :=
  negb (Throne.passed t) && Qltb (Throne.x t - v + Throne.width t) bx.

(** The score increments of a pass over [l], whose head has index [i]. *)
Fixpoint credits_from (i : nat) (v bx : Q) (l : list Throne.t) : Z :=
  match l with
  | [] => 0
  | t :: rest =>
      ((if crossing v bx t && (i mod 2 =? 0)%nat then 1 else 0)
       + credits_from (S i) v bx rest)%Z
  end.

(** The array after a pass. *)
Definition sweep (v bx : Q) (l : list Throne.t) : list Throne.t :=
  List.filter (fun t => negb (offscreen t)) (map (advance v bx) l).

Definition moved_bird (b : Bird.t) : Bird.t :=
  Bird.mk (Bird.x b) (Bird.y b + (Bird.velocity b + GRAVITY))
          (Bird.width b) (Bird.height b) (Bird.velocity b + GRAVITY).

Definition speed_of_score (s : Z) : Q :=
  INITIAL_THRONE_SPEED + inject_Z s * SPEED_INCREASE_RATE.

(** The state [update] hands to the collision checks: the bird moved, the
    speed recomputed, the obstacles advanced, flagged, counted and swept. *)
Definition advanced (w : World) : World :=
  let v := speed_of_score (score (gameState w)) in
  mkWorld
    (mkGameState (running (gameState w)) (gameOver (gameState w))
                 (score (gameState w) + credits_from 0 v (Bird.x (bird w)) (thrones w))
                 v (musicStarted (gameState w)))
    (moved_bird (bird w))
    (sweep v (Bird.x (bird w)) (thrones w))
    (trace w).

(** The two terminal conditions. *)
Definition hits_throne (w : World) : bool :=
  existsb (overlaps (bird w)) (thrones w).

Definition hits_band (b : Bird.t) : bool :=
  Qleb groundY (Bird.y b + Bird.height b) || Qleb (Bird.y b) ceilingY.

Definition terminal_checks (w : World) : World :=
  let w := checkCollisions w in
  if hits_band (bird w) then endGame w else w.

(** What [jump] emits before it looks at the lifecycle: the first
    interaction starts the music. *)
Definition music_prelude (w : World) : list Effect :=
  if musicStarted (gameState w) then [] else [MusicPlay].

(** ** Free fall *)

(** The sum of the velocities [1 * GRAVITY + ... + n * GRAVITY]. *)
Fixpoint velocity_sum (n : nat) : Q :=
  match n with
  | O => 0
  | S m => velocity_sum m + inject_Z (Z.of_nat (S m)) * GRAVITY
  end.

(** ** Pairs *)

(** [bottom] is the obstacle pushed right after [top] by one call of
    [spawnThrone], as far as the fields that the engine reads go. *)
Definition matching (top bottom : Throne.t) : Prop :=
  Throne.y top = 0
  /\ Throne.x bottom = Throne.x top
  /\ Throne.width bottom = Throne.width top
  /\ Throne.passed bottom = Throne.passed top
  /\ Throne.y bottom = Throne.height top + THRONE_GAP.

(** The array is a sequence of whole pairs, top member first. *)
Fixpoint paired (l : list Throne.t) : Prop :=
  match l with
  | [] => True
  | top :: l' =>
      match l' with
      | [] => False
      | bottom :: rest => matching top bottom /\ paired rest
      end
  end.

(** The array written as a list of pairs, and a pass over it pair by
    pair. *)
Definition unpair (ps : list (Throne.t * Throne.t)) : list Throne.t :=
  flat_map (fun p => [fst p; snd p]) ps.

Definition advance_pair (v bx : Q) (p : Throne.t * Throne.t) : Throne.t * Throne.t :=
  (advance v bx (fst p), advance v bx (snd p)).

Definition sweep_pairs (v bx : Q) (ps : list (Throne.t * Throne.t)) :
  list (Throne.t * Throne.t) :=
  List.filter (fun p => negb (offscreen (fst p))) (map (advance_pair v bx) ps).

(** The flag of an obstacle says whether its trailing edge is behind the
    bird's [x]. *)
Definition flag_ok (bx : Q) (t : Throne.t) : Prop :=
  Throne.passed t = Qltb (Throne.x t + Throne.width t) bx.

(** Pairs whose top member is flagged in a pass with speed [v]. *)
Fixpoint pair_credits (v bx : Q) (l : list Throne.t) : Z :=
  match l with
  | top :: _ :: rest =>
      ((if crossing v bx top then 1 else 0) + pair_credits v bx rest)%Z
  | _ => 0%Z
  end.

(** ** Accounting along a run *)

(** A ledger kept beside a run. Each pair gets a serial number when it is
    spawned, counted from 0 within the session; [live] lists the serial
    numbers of the pairs on the field, in array order (entry [k] belongs to
    the obstacles at indices [2k] and [2k + 1]); [credited] lists, for each
    increment of the score, the serial number of the pair at whose top
    member it happened. *)
Record Ledger := mkLedger {
  live : list nat;
  issued : nat;
  credited : list nat
}.

Definition opening : Ledger := mkLedger [] 0 [].

(** Serial numbers of the pairs whose top member is flagged in a pass. *)
Fixpoint scorers (v bx : Q) (l : list Throne.t) (ids : list nat) : list nat :=
  match l, ids with
  | top :: _ :: rest, id :: ids' =>
      (if crossing v bx top then [id] else []) ++ scorers v bx rest ids'
  | _, _ => []
  end.

(** Serial numbers of the pairs that stay on the field in a pass. *)
Fixpoint survivors (v bx : Q) (l : list Throne.t) (ids : list nat) : list nat :=
  match l, ids with
  | top :: _ :: rest, id :: ids' =>
      (if offscreen (advance v bx top) then [] else [id])
      ++ survivors v bx rest ids'
  | _, _ => []
  end.

(** Serial numbers of the pairs on the field whose trailing edge is not yet
    behind the bird. *)
Fixpoint waiting_ids (bx : Q) (l : list Throne.t) (ids : list nat) : list nat :=
  match l, ids with
  | top :: _ :: rest, id :: ids' =>
      (if Qltb (Throne.x top + Throne.width top) bx then [] else [id])
      ++ waiting_ids bx rest ids'
  | _, _ => []
  end.

(** The ledger follows the host calls: [setup] opens a new ledger, a timer
    that fires in a running session issues a serial number, a frame of a
    running session credits the pairs that score and drops those that
    leave. *)
Definition ledger_step (e : Event) (w : World) (g : Ledger) : Ledger :=
  if negb (running (gameState w)) || gameOver (gameState w)
  then match e with
       | Jump => opening
       | _ => g
       end
  else match e with
       | Tick =>
           let v := speed_of_score (score (gameState w)) in
           let bx := Bird.x (bird w) in
           mkLedger (survivors v bx (thrones w) (live g))
                    (issued g)
                    (credited g ++ scorers v bx (thrones w) (live g))
       | Jump => g
       | TimerFires _ =>
           mkLedger (live g ++ [issued g]) (S (issued g)) (credited g)
       end.

Fixpoint ledger (es : list Event) (w : World) (g : Ledger) : Ledger :=
  match es with
  | [] => g
  | e :: es' =>
      match step e w with
      | None => g
      | Some w' => ledger es' w' (ledger_step e w g)
      end
  end.

(** What every run from the start of the script maintains. *)
Definition session_inv (w : World) : Prop :=
  paired (thrones w)
  /\ Forall (flag_ok (Bird.x (bird w))) (thrones w)
  /\ Bird.x (bird w) = 400
  /\ (0 <= score (gameState w))%Z.

(** The ledger agrees with the state: one serial number per pair on the
    field, one credit per point, and every serial number issued is either
    credited or waiting, never both and never twice. *)
Definition ledger_inv (w : World) (g : Ledger) : Prop :=
  session_inv w
  /\ length (thrones w) = (2 * length (live g))%nat
  /\ score (gameState w) = Z.of_nat (length (credited g))
  /\ Permutation
       (credited g ++ waiting_ids (Bird.x (bird w)) (thrones w) (live g))
       (seq 0 (issued g)).

(** ** Sessions used as examples *)

(** The session right after the first [jump]. *)
Definition started : World := jump initial.

(** A running session with the given score and nothing else of note. *)
Definition session_with_score (s : Z) : World :=
  with_gameState (set_score s) (setup initial).

(** A session that ended with two obstacles on the field and 7 points. *)
Definition ended_session : World :=
  mkWorld
    (mkGameState false true 7 12.7 true)
    (Bird.mk 400 757.5 360 203 14.5)
    [Throne.mk 600 0 360 140 false; Throne.mk 600 940 360 140 false]
    [MusicPlay; OverlayHide; MusicPlay; SetTimeout 2000; OverlayShow; MusicPause].

(** A running session in which the bird, one frame above the ground band,
    is level with a bottom obstacle. *)
Definition doomed_session : World :=
  mkWorld
    (mkGameState true false 3 12.3 true)
    (Bird.mk 400 750 360 203 10)
    [Throne.mk 500 0 360 (-100) true; Throne.mk 500 700 360 380 true]
    [MusicPlay; OverlayHide; MusicPlay; SetTimeout 2000].

(** A running session with one pair that the bird is about to pass, and a
    stored speed that is out of date. *)
Definition passing_session : World :=
  mkWorld
    (mkGameState true false 0 99 true)
    (Bird.mk 400 500 360 203 0)
    [Throne.mk 50 0 360 100 false; Throne.mk 50 900 360 180 false]
    [].

(** A running session whose first pair is about to leave the field while
    a second pair is in mid-field. *)
Definition leaving_session : World :=
  mkWorld
    (mkGameState true false 1 12.0 true)
    (Bird.mk 400 500 360 203 0)
    [Throne.mk (-350) 0 360 100 true; Throne.mk (-350) 900 360 180 true;
     Throne.mk 900 0 360 200 false; Throne.mk 900 1000 360 80 false]
    [].

Definition two_pairs_run : list Event :=
  [Jump; TimerFires 0.5; Tick; TimerFires 0.25; Tick].

(** A session kept alive by a jump every 31 frames, with one pair spawned
    at its start. *)
Definition hop : list Event := Jump :: repeat Tick 31.
Definition flight (n : nat) : list Event :=
  [Jump; TimerFires 0.5] ++ concat (repeat hop n).

(** What a run leaves: score, number of obstacles, and the ledger. *)
Definition outcome (es : list Event) : option (Z * nat * Ledger) :=
  match run es initial with
  | Some w => Some (score (gameState w), length (thrones w), ledger es initial opening)
  | None => None
  end.

(** ** Further vocabulary: runs, order, shapes, the page *)

(** Some key press or click occurs in the run. *)
Definition has_jump (es : list Event) : bool :=
  existsb (fun e => match e with Jump => true | _ => false end) es.

(** Every number that [Math.random()] returns during the run is a draw. *)
Definition legit (es : list Event) : Prop :=
  Forall (fun e => match e with TimerFires rnd => is_draw rnd | _ => True end) es.

(** The obstacles are ordered by [x] along the array. *)
Fixpoint ordered (l : list Throne.t) : Prop :=
  match l with
  | [] => True
  | t :: rest => Forall (fun u => Throne.x t <= Throne.x u) rest /\ ordered rest
  end.

(** The vertical extent of an obstacle that [spawnThrone] makes from a draw:
    a top member that reaches from 0 down to at most 400, or a bottom member
    that starts below 680 and reaches the bottom of the field. *)
Definition spawned_shape (t : Throne.t) : Prop :=
  (Throne.y t = 0 /\ -120 < Throne.height t /\ Throne.height t <= 400)
  \/ (680 < Throne.y t /\ Throne.y t <= 1200
      /\ Throne.y t + Throne.height t == CANVAS_HEIGHT).



(** What every run from the start of the script maintains about the order
    of the obstacles and the speed. *)
Definition order_inv (w : World) : Prop :=
  Forall (fun t => Throne.width t = THRONE_WIDTH) (thrones w)
  /\ Forall (fun t => Throne.x t <= CANVAS_WIDTH) (thrones w)
  /\ ordered (thrones w)
  /\ (0 <= score (gameState w))%Z
  /\ INITIAL_THRONE_SPEED <= currentThroneSpeed (gameState w).

(** What every run from the start of the script maintains about the bird. *)
Definition bird_inv (w : World) : Prop :=
  Bird.x (bird w) = 400
  /\ Bird.width (bird w) = 360
  /\ Bird.height (bird w) = 203
  /\ JUMP_STRENGTH <= Bird.velocity (bird w)
  /\ (Running w ->
      ceilingY < Bird.y (bird w)
      /\ Bird.y (bird w) + Bird.height (bird w) < groundY)
  /\ (Idle w ->
      Bird.y (bird w) = CANVAS_HEIGHT / 2 /\ Bird.velocity (bird w) = 0).


(** A run of two pairs a frame apart, the bird being kept in the air. *)
Definition lane_run : list Event :=
  [Jump; TimerFires 0.25; Tick; TimerFires 0.75; Jump; Tick; Tick].

(** ** Starting the frame loop

    The end of the script: [imageLoaded] is the [onload] handler of each of
    the images, and the last statement starts the loop at once when all
    images are already complete. [loopsStarted] counts the calls of
    [gameLoop] from outside the loop; each of them starts a chain of
    [requestAnimationFrame] callbacks that runs [update] once per frame. *)





(** ** A way of playing *)

(** [weave inputs es]: the events [es] are the frames and key presses
    [inputs], in order, with spawn timers firing anywhere in between, each
    with a draw of its own. *)
Inductive weave : list Event -> list Event -> Prop :=
| weave_nil : weave [] []
| weave_timer rnd inputs es :
    is_draw rnd -> weave inputs es -> weave inputs (TimerFires rnd :: es)
| weave_tick inputs es :
    weave inputs es -> weave (Tick :: inputs) (Tick :: es)
| weave_jump inputs es :
    weave inputs es -> weave (Jump :: inputs) (Jump :: es).

(** A key press and five frames. *)
Definition hop5 : list Event := Jump :: repeat Tick 5.

(** The inputs of the pilot: the key press that starts the session, two
    short hops that take the bird from 540 down to 475, then [n] hops of 31
    frames. *)
Definition pilot (n : nat) : list Event :=
  (Jump :: hop5 ++ hop5) ++ concat (repeat hop n).

(** The height of the bird [k] frames after a key press at height [y0]. *)
Definition flight_height (y0 : Q) (k : nat) : Q :=
  y0 - 8 * inject_Z (Z.of_nat k)
  + inject_Z (Z.of_nat k) * (inject_Z (Z.of_nat k) + 1) / 4.

(** The bird has its box, and the session is running. *)
Definition flying (w : World) : Prop :=
  Running w
  /\ Bird.x (bird w) = 400
  /\ Bird.width (bird w) = 360
  /\ Bird.height (bird w) = 203.

(** The session is running with the bird at height [y0]. *)
Definition ready (y0 : Q) (w : World) : Prop :=
  flying w /\ Bird.y (bird w) == y0.

(** The session is running, [k] frames after a key press at height [y0]. *)
Definition airborne (y0 : Q) (k : nat) (w : World) : Prop :=
  flying w
  /\ Bird.velocity (bird w) == JUMP_STRENGTH + inject_Z (Z.of_nat k) * GRAVITY
  /\ Bird.y (bird w) == flight_height y0 k.

(** At most [t] frames of the session have passed: nothing has scored and
    every obstacle is still within [12 * t] of the spawn position. *)
Definition far (t : nat) (w : World) : Prop :=
  score (gameState w) = 0%Z
  /\ Forall (fun th => spawned_shape th
                       /\ CANVAS_WIDTH - 12 * inject_Z (Z.of_nat t) <= Throne.x th
                       /\ Throne.width th = THRONE_WIDTH)
            (thrones w).

(** The game-over screen has never been shown: [endGame] has not run. *)
Definition quiet (w : World) : Prop := ~ In OverlayShow (trace w).

(** Every obstacle has the shape of a pair made from a draw. *)
Definition lane (w : World) : Prop := Forall spawned_shape (thrones w).

(** [P] is kept when a spawn timer fires with a draw. *)
Definition spawn_stable (P : World -> Prop) : Prop :=
  forall rnd w, is_draw rnd -> P w -> P (spawnThrone rnd w).

(** From a state in [P], the inputs [pre], with spawn timers firing before
    each of them, lead to a state in [Q]. *)
Definition consumes (pre : list Event) (P Q : World -> Prop) : Prop :=
  forall rest es w,
    weave (pre ++ rest) es -> P w ->
    exists es' w', weave rest es' /\ run es w = run es' w' /\ Q w'.

(** A pilot's run with two timers firing early and one late. *)
Definition pilot_run : list Event :=
  TimerFires 0.5 :: Jump :: TimerFires 0 :: hop5 ++ hop5 ++ TimerFires 0.99 :: hop.

(** ** Timers and speed *)

(** A call of [setTimeout] has a delay between one and three seconds; the
    other host calls are not constrained. *)
Definition delay_ok (e : Effect) : Prop :=
  match e with
  | SetTimeout ms => (1000 <= ms <= 3000)%Z
  | _ => True
  end.

(** The stored speed is the speed formula at a score the session has had. *)
Definition speed_inv (w : World) : Prop :=
  exists s, (0 <= s <= score (gameState w))%Z
            /\ currentThroneSpeed (gameState w) == speed_of_score s.

(** * Part III: proofs *)

(** ** Comparisons *)

Lemma Qltb_lt (a b : Q) : Qltb a b = true <-> a < b.
Proof.
  unfold Qltb. rewrite negb_true_iff, <- not_true_iff_false, Qle_bool_iff.
  split; [apply Qnot_le_lt | apply Qlt_not_le].
Qed.

Lemma Qltb_ge (a b : Q) : Qltb a b = false <-> b <= a.
Proof.
  unfold Qltb. rewrite negb_false_iff. apply Qle_bool_iff.
Qed.

Lemma Qleb_le (a b : Q) : Qleb a b = true <-> a <= b.
Proof. apply Qle_bool_iff. Qed.

Lemma Qleb_gt (a b : Q) : Qleb a b = false <-> b < a.
Proof.
  unfold Qleb. rewrite <- not_true_iff_false, Qle_bool_iff.
  split; [apply Qnot_le_lt | apply Qlt_not_le].
Qed.

(** Turns the comparisons among the hypotheses into order facts. *)
Ltac cmp_to_order :=
  repeat match goal with
         | H : Qltb _ _ = true |- _ => apply Qltb_lt in H
         | H : Qltb _ _ = false |- _ => apply Qltb_ge in H
         | H : Qleb _ _ = true |- _ => apply Qleb_le in H
         | H : Qleb _ _ = false |- _ => apply Qleb_gt in H
         end.

(** ** The guard of [update] and [spawnThrone] *)

Lemma guard_Running (w : World) :
  negb (running (gameState w)) || gameOver (gameState w) = false <-> Running w.
Proof.
  unfold Running. destruct (running _), (gameOver _); simpl; intuition congruence.
Qed.

Lemma guard_not_Running (w : World) :
  negb (running (gameState w)) || gameOver (gameState w) = true <-> ~ Running w.
Proof.
  rewrite <- guard_Running. destruct (negb _ || _); intuition congruence.
Qed.

Lemma Running_dec (w : World) : {Running w} + {~ Running w}.
Proof.
  unfold Running. destruct (running _), (gameOver _); auto; right; intuition congruence.
Qed.

(** ** One pass over the obstacles *)

Section Pass.

Variables v bx : Q.

Lemma x_advance t : Throne.x (advance v bx t) = Throne.x t - v.
Proof. unfold advance; simpl. by destruct (_ && _). Qed.

Lemma y_advance t : Throne.y (advance v bx t) = Throne.y t.
Proof. unfold advance; simpl. by destruct (_ && _). Qed.

Lemma width_advance t : Throne.width (advance v bx t) = Throne.width t.
Proof. unfold advance; simpl. by destruct (_ && _). Qed.

Lemma height_advance t : Throne.height (advance v bx t) = Throne.height t.
Proof. unfold advance; simpl. by destruct (_ && _). Qed.

Lemma passed_advance t :
  Throne.passed (advance v bx t) = Throne.passed t || crossing v bx t.
Proof.
  unfold advance, crossing; simpl.
  destruct (Throne.passed t) eqn:Hp, (Qltb _ _); simpl; by rewrite ?Hp.
Qed.

Lemma offscreen_advance t :
  offscreen (advance v bx t) = Qltb (Throne.x t - v + Throne.width t) 0.
Proof. unfold offscreen. by rewrite x_advance, width_advance. Qed.

Lemma credits_from_app i l1 l2 :
  credits_from i v bx (l1 ++ l2)
  = (credits_from i v bx l1 + credits_from (i + length l1) v bx l2)%Z.
Proof.
  revert i. induction l1 as [|t l1 IH]; intros i; simpl.
  - by rewrite Nat.add_0_r.
  - rewrite IH. replace (S i + length l1)%nat with (i + S (length l1))%nat by lia.
    lia.
Qed.

Lemma sweep_app l1 l2 : sweep v bx (l1 ++ l2) = sweep v bx l1 ++ sweep v bx l2.
Proof. unfold sweep. by rewrite map_app, List.filter_app. Qed.

Lemma In_sweep l t' :
  In t' (sweep v bx l)
  <-> exists t, In t l /\ t' = advance v bx t /\ offscreen t' = false.
Proof.
  unfold sweep. rewrite filter_In, in_map_iff, negb_true_iff.
  split.
  - intros [(t & <- & Hin) Hoff]. eauto.
  - intros (t & Hin & -> & Hoff). eauto.
Qed.

(** Deciding first and advancing after gives the same array. *)
Lemma sweep_filter_first l :
  sweep v bx l
  = map (advance v bx)
        (List.filter (fun t => negb (Qltb (Throne.x t - v + Throne.width t) 0)) l).
Proof.
  unfold sweep. induction l as [|t l IH]; simpl; [done|].
  rewrite <- offscreen_advance. destruct (offscreen _); simpl; by rewrite IH.
Qed.

End Pass.

(** ** The loop of [update] *)

Local Arguments Nat.modulo : simpl never.

Lemma insert_middle {A} (pre : list A) (t t' : A) (suf : list A) :
  <[length pre := t']> (pre ++ t :: suf) = pre ++ t' :: suf.
Proof.
  rewrite <- (Nat.add_0_r (length pre)) at 1. by rewrite insert_app_r.
Qed.

(** The iteration at index [i] rewrites the element at [i], and only it. *)
Lemma update_body_spec i w pre t suf :
  thrones w = pre ++ t :: suf ->
  length pre = i ->
  update_body i w
  = Some (mkWorld
            (set_score
               (score (gameState w)
                + credits_from i (currentThroneSpeed (gameState w)) (Bird.x (bird w)) [t])
               (gameState w))
            (bird w)
            (pre ++ sweep (currentThroneSpeed (gameState w)) (Bird.x (bird w)) [t] ++ suf)
            (trace w)).
Proof.
  intros Hl <-. unfold update_body. rewrite Hl, list_lookup_middle by done.
  destruct w as [g b l tr]; simpl in *. subst l.
  unfold sweep, advance, crossing, offscreen, set_thrones, with_gameState; simpl.
  rewrite !insert_middle.
  destruct (negb (Throne.passed t) && _) eqn:Hc; simpl;
    [rewrite ?insert_middle; destruct (length pre mod 2 =? 0)%nat; simpl|];
    destruct (Qltb _ 0); simpl;
    rewrite ?delete_middle, ?Z.add_0_r; by destruct g.
Qed.

(** The loop started at [n = length pre] visits every element of [pre],
    from the last to the first, and never indexes outside the array. *)
Lemma update_loop_spec n : forall w pre suf,
  thrones w = pre ++ suf ->
  length pre = n ->
  update_loop n w
  = Some (mkWorld
            (set_score
               (score (gameState w)
                + credits_from 0 (currentThroneSpeed (gameState w)) (Bird.x (bird w)) pre)
               (gameState w))
            (bird w)
            (sweep (currentThroneSpeed (gameState w)) (Bird.x (bird w)) pre ++ suf)
            (trace w)).
Proof.
  induction n as [|i IH]; intros w pre suf Hl Hn.
  - apply nil_length_inv in Hn as ->. simpl in *.
    rewrite Z.add_0_r. destruct w as [[] ? ? ?]; simpl in *. by subst.
  - destruct pre as [|t pre _] using rev_ind; [done|].
    rewrite length_app in Hn; simpl in Hn.
    assert (length pre = i) as Hi by lia.
    rewrite <- app_assoc in Hl; simpl in Hl.
    simpl. rewrite (update_body_spec i w pre t suf Hl Hi).
    erewrite IH; [|simpl; reflexivity|exact Hi].
    simpl. rewrite credits_from_app, sweep_app, Hi, <- app_assoc. simpl.
    f_equal. f_equal. unfold set_score; simpl. f_equal. lia.
Qed.

(** ** The frame step in closed form *)

Lemma update_Running (w : World) :
  Running w -> update w = Some (terminal_checks (advanced w)).
Proof.
  intros HR. unfold update. rewrite (proj2 (guard_Running w) HR).
  cbv zeta.
  erewrite (update_loop_spec _ _ _ []); [|by rewrite app_nil_r|done].
  destruct w as [g b l tr]; simpl. by rewrite app_nil_r.
Qed.

Lemma update_not_Running (w : World) : ~ Running w -> update w = Some w.
Proof.
  intros HR. unfold update. by rewrite (proj2 (guard_not_Running w) HR).
Qed.

(** [update] never throws: the index of the loop stays inside the array
    although the array shrinks under it. *)
Lemma update_total (w : World) : is_Some (update w).
Proof.
  destruct (Running_dec w) as [H|H].
  - rewrite update_Running by done. eauto.
  - rewrite update_not_Running by done. eauto.
Qed.

(** ** [endGame] and the two checks *)

Lemma endGame_GameOver (w : World) :
  gameOver (gameState w) = true -> endGame w = w.
Proof. intros H. unfold endGame. by rewrite H. Qed.

Lemma endGame_fresh (w : World) :
  gameOver (gameState w) = false ->
  endGame w
  = mkWorld
      (mkGameState false true (score (gameState w))
                   (currentThroneSpeed (gameState w)) (musicStarted (gameState w)))
      (bird w) (thrones w) (trace w ++ [OverlayShow; MusicPause]).
Proof.
  intros H. unfold endGame. rewrite H. destruct w as [g b l tr]; simpl.
  unfold emit, with_gameState; simpl. by rewrite <- app_assoc.
Qed.

Lemma endGame_gameOver (w : World) : gameOver (gameState (endGame w)) = true.
Proof.
  destruct (gameOver (gameState w)) eqn:H.
  - by rewrite endGame_GameOver.
  - by rewrite endGame_fresh.
Qed.

Lemma endGame_idempotent (w : World) : endGame (endGame w) = endGame w.
Proof. apply endGame_GameOver, endGame_gameOver. Qed.

Lemma bird_endGame (w : World) : bird (endGame w) = bird w.
Proof. unfold endGame. by destruct (gameOver _). Qed.

Lemma thrones_endGame (w : World) : thrones (endGame w) = thrones w.
Proof. unfold endGame. by destruct (gameOver _). Qed.

Lemma score_endGame (w : World) :
  score (gameState (endGame w)) = score (gameState w).
Proof. unfold endGame. by destruct (gameOver _). Qed.

Lemma speed_endGame (w : World) :
  currentThroneSpeed (gameState (endGame w)) = currentThroneSpeed (gameState w).
Proof. unfold endGame. by destruct (gameOver _). Qed.

Lemma checkCollisions_from_spec (l : list Throne.t) (w : World) :
  checkCollisions_from l w
  = if existsb (overlaps (bird w)) l then endGame w else w.
Proof.
  induction l as [|t l IH]; simpl; [done|].
  destruct (overlaps (bird w) t); simpl; [done|apply IH].
Qed.

(** Both checks together signal the end of the session once, whichever of
    them fire. *)
Lemma terminal_checks_spec (w : World) :
  terminal_checks w
  = if hits_throne w || hits_band (bird w) then endGame w else w.
Proof.
  unfold terminal_checks, checkCollisions, hits_throne.
  rewrite checkCollisions_from_spec.
  destruct (existsb _ _); simpl; [|done].
  rewrite bird_endGame, endGame_idempotent. by destruct (hits_band _).
Qed.

Lemma bird_terminal_checks (w : World) : bird (terminal_checks w) = bird w.
Proof.
  rewrite terminal_checks_spec. destruct (_ || _); [apply bird_endGame|done].
Qed.

Lemma thrones_terminal_checks (w : World) : thrones (terminal_checks w) = thrones w.
Proof.
  rewrite terminal_checks_spec. destruct (_ || _); [apply thrones_endGame|done].
Qed.

Lemma score_terminal_checks (w : World) :
  score (gameState (terminal_checks w)) = score (gameState w).
Proof.
  rewrite terminal_checks_spec. destruct (_ || _); [apply score_endGame|done].
Qed.

Lemma speed_terminal_checks (w : World) :
  currentThroneSpeed (gameState (terminal_checks w))
  = currentThroneSpeed (gameState w).
Proof.
  rewrite terminal_checks_spec. destruct (_ || _); [apply speed_endGame|done].
Qed.

Create Rewrite HintDb frame.

#[local] Hint Rewrite bird_terminal_checks thrones_terminal_checks
  score_terminal_checks speed_terminal_checks : frame.

(** What a frame of a running session leaves, field by field. *)

Lemma bird_update (w w' : World) :
  Running w -> update w = Some w' -> bird w' = moved_bird (bird w).
Proof.
  intros HR. rewrite update_Running by done. intros [= <-].
  by autorewrite with frame.
Qed.

Lemma thrones_update (w w' : World) :
  Running w -> update w = Some w' ->
  thrones w' = sweep (speed_of_score (score (gameState w))) (Bird.x (bird w)) (thrones w).
Proof.
  intros HR. rewrite update_Running by done. intros [= <-].
  by autorewrite with frame.
Qed.

Lemma speed_update (w w' : World) :
  Running w -> update w = Some w' ->
  currentThroneSpeed (gameState w') = speed_of_score (score (gameState w)).
Proof.
  intros HR. rewrite update_Running by done. intros [= <-].
  by autorewrite with frame.
Qed.

Lemma score_update (w w' : World) :
  Running w -> update w = Some w' ->
  score (gameState w')
  = (score (gameState w)
     + credits_from 0 (speed_of_score (score (gameState w))) (Bird.x (bird w))
                    (thrones w))%Z.
Proof.
  intros HR. rewrite update_Running by done. intros [= <-].
  by autorewrite with frame.
Qed.

(** A frame of a running session either emits nothing or ends the session,
    emitting the two end-of-session effects once. *)
Lemma trace_update (w w' : World) :
  Running w -> update w = Some w' ->
  (Running w' /\ trace w' = trace w)
  \/ (GameOver w' /\ trace w' = trace w ++ [OverlayShow; MusicPause]).
Proof.
  intros HR. rewrite update_Running by done. intros [= <-].
  rewrite terminal_checks_spec. destruct (_ || _).
  - right. rewrite endGame_fresh by apply HR. by split.
  - left. by split.
Qed.

(** ** Runs of host calls *)

Lemma step_total (e : Event) (w : World) : is_Some (step e w).
Proof. destruct e; simpl; eauto using update_total. Qed.

Lemma run_total (es : list Event) : forall w, is_Some (run es w).
Proof.
  induction es as [|e es IH]; intros w; simpl; [eauto|].
  destruct (step_total e w) as [w' ->]. apply IH.
Qed.

Lemma run_app (es1 es2 : list Event) : forall w,
  run (es1 ++ es2) w = match run es1 w with
                       | None => None
                       | Some w' => run es2 w'
                       end.
Proof.
  induction es1 as [|e es1 IH]; intros w; simpl; [done|].
  destruct (step e w); [apply IH|done].
Qed.

Lemma run_ticks_S (n : nat) (w : World) :
  run (repeat Tick (S n)) w
  = match run (repeat Tick n) w with
    | None => None
    | Some w' => update w'
    end.
Proof.
  replace (S n) with (n + 1)%nat by lia.
  rewrite repeat_app, run_app. simpl.
  destruct (run _ w) as [w'|]; [|done]. by destruct (update w').
Qed.

(** ** The spawn interval *)

Lemma spawnThrone_Running (rnd : Q) (w : World) :
  Running w ->
  spawnThrone rnd w
  = mkWorld (gameState w) (bird w)
            (thrones w ++ [top_throne rnd; bottom_throne rnd])
            (trace w ++ [SetTimeout (getSpawnInterval w)]).
Proof.
  intros HR. unfold spawnThrone. rewrite (proj2 (guard_Running w) HR).
  destruct w as [g b l tr]; unfold set_thrones, emit; simpl.
  by rewrite <- app_assoc.
Qed.

(** C5. The delay with which [spawnThrone] re-arms its timer is
    [getSpawnInterval] of the score at that moment, and that is the first
    matching band of: 3000 ms below 10, 2500 ms below 20, 2000 ms below 50,
    1500 ms below 100, 1000 ms from 100 on. At score 10 exactly it is
    2500 ms. *)
Theorem getSpawnInterval_bands (w : World) (rnd : Q) :
  Running w ->
  trace (spawnThrone rnd w) = trace w ++ [SetTimeout (getSpawnInterval w)]
  /\ ((score (gameState w) < 10)%Z -> getSpawnInterval w = 3000%Z)
  /\ ((10 <= score (gameState w) < 20)%Z -> getSpawnInterval w = 2500%Z)
  /\ ((20 <= score (gameState w) < 50)%Z -> getSpawnInterval w = 2000%Z)
  /\ ((50 <= score (gameState w) < 100)%Z -> getSpawnInterval w = 1500%Z)
  /\ ((100 <= score (gameState w))%Z -> getSpawnInterval w = 1000%Z)
  /\ (score (gameState w) = 10%Z -> getSpawnInterval w = 2500%Z).
Proof.
  intros HR. split.
  - by rewrite spawnThrone_Running.
  - unfold getSpawnInterval, INITIAL_SPAWN_INTERVAL.
    repeat split; intros H;
      repeat (case_match; try reflexivity);
      repeat match goal with
             | E : (_ <? _)%Z = true |- _ => apply Z.ltb_lt in E
             | E : (_ <? _)%Z = false |- _ => apply Z.ltb_ge in E
             end; lia.
Qed.

Lemma getSpawnInterval_bands_witness :
  Running (session_with_score 10)
  /\ getSpawnInterval (session_with_score 10) = 2500%Z
  /\ trace (spawnThrone 0.5 (session_with_score 10))
     = trace (session_with_score 10) ++ [SetTimeout 2500].
Proof.
  assert (HR : Running (session_with_score 10)) by (split; reflexivity).
  pose proof (getSpawnInterval_bands (session_with_score 10) 0.5 HR)
    as (Htr & _ & _ & _ & _ & _ & H10).
  split; [exact HR|]. split; [apply H10; reflexivity|].
  rewrite Htr, H10; reflexivity.
Defined.

(** ** Quiescence outside [Running] *)

(** C8. When the session is not running (idle or over), a frame changes
    nothing at all, and a spawn timer that fires changes nothing either: no
    obstacle is appended and no timer is armed. *)
Theorem not_Running_quiescent (w : World) :
  ~ Running w ->
  update w = Some w /\ forall rnd, spawnThrone rnd w = w.
Proof.
  intros HR. split; [by apply update_not_Running|].
  intros rnd. unfold spawnThrone. by rewrite (proj2 (guard_not_Running w) HR).
Qed.

Lemma not_Running_quiescent_witness :
  ~ Running ended_session
  /\ update ended_session = Some ended_session
  /\ spawnThrone 0.5 ended_session = ended_session.
Proof.
  assert (HR : ~ Running ended_session) by (intros [H _]; discriminate H).
  destruct (not_Running_quiescent ended_session HR) as [Hu Hs].
  split; [exact HR|]. split; [exact Hu|apply Hs].
Defined.

(** ** Starting and restarting *)

Lemma jump_not_running (w : World) :
  running (gameState w) = false ->
  jump w
  = mkWorld
      (mkGameState true false 0 INITIAL_THRONE_SPEED true)
      (Bird.mk (Bird.x (bird w)) (CANVAS_HEIGHT / 2)
               (Bird.width (bird w)) (Bird.height (bird w)) 0)
      []
      (trace w ++ music_prelude w ++ [OverlayHide; MusicPlay] ++ [SetTimeout 2000]).
Proof.
  intros H. destruct w as [[r o s v m] b l tr]; simpl in *. subst r.
  destruct m;
    cbv [jump music_prelude setup emit with_gameState with_bird set_thrones negb
         gameState running gameOver score currentThroneSpeed musicStarted
         bird thrones trace set_running set_gameOver set_score
         set_currentThroneSpeed set_musicStarted set_bird_y set_bird_velocity
         Bird.x Bird.y Bird.width Bird.height Bird.velocity];
    rewrite <- ?app_assoc; reflexivity.
Qed.

Lemma thrones_setup (w : World) : thrones (setup w) = [].
Proof. destruct w as [[r o s v m] b l tr]. unfold setup; simpl. by destruct m. Qed.

(** C7. A [jump] while the session is idle or over starts a session: the
    state is [Running], the score is 0, there are no obstacles whatever was
    left over, the bird is at mid-height with velocity 0, the speed is the
    base speed, and exactly one spawn timer has been armed, with the 2000 ms
    grace delay. What comes out does not depend on whether the session was
    idle or over. *)
Theorem jump_starts_session (w : World) :
  Idle w \/ GameOver w ->
  Running (jump w)
  /\ score (gameState (jump w)) = 0%Z
  /\ thrones (jump w) = []
  /\ Bird.y (bird (jump w)) = CANVAS_HEIGHT / 2
  /\ Bird.velocity (bird (jump w)) = 0
  /\ currentThroneSpeed (gameState (jump w)) = INITIAL_THRONE_SPEED
  /\ (exists pre, trace (jump w) = trace w ++ pre ++ [SetTimeout 2000]
                  /\ forall ms, ~ In (SetTimeout ms) pre)
  /\ (forall w0, Idle w0 ->
        gameState (jump w) = gameState (jump w0)
        /\ thrones (jump w) = thrones (jump w0)
        /\ Bird.y (bird (jump w)) = Bird.y (bird (jump w0))
        /\ Bird.velocity (bird (jump w)) = Bird.velocity (bird (jump w0))).
Proof.
  intros Hw.
  assert (running (gameState w) = false) as Hr by (destruct Hw as [[? _]|[? _]]; done).
  rewrite (jump_not_running w Hr). simpl.
  repeat split; try reflexivity.
  - exists (music_prelude w ++ [OverlayHide; MusicPlay]). split.
    + by rewrite <- !app_assoc.
    + intros ms Hin. unfold music_prelude in Hin.
      destruct (musicStarted _); simpl in Hin; intuition discriminate.
  - by rewrite (jump_not_running w0) by apply H.
  - by rewrite (jump_not_running w0) by apply H.
  - by rewrite (jump_not_running w0) by apply H.
  - by rewrite (jump_not_running w0) by apply H.
Qed.

Lemma jump_starts_session_witness :
  (Idle ended_session \/ GameOver ended_session)
  /\ Running (jump ended_session)
  /\ score (gameState (jump ended_session)) = 0%Z
  /\ thrones (jump ended_session) = []
  /\ gameState (jump ended_session) = gameState (jump initial).
Proof.
  assert (H : Idle ended_session \/ GameOver ended_session)
    by (right; split; reflexivity).
  destruct (jump_starts_session ended_session H)
    as (HR & Hs & Ht & _ & _ & _ & _ & Hsame).
  split; [exact H|]. split; [exact HR|]. split; [exact Hs|]. split; [exact Ht|].
  apply Hsame. split; reflexivity.
Defined.

(** ** Ending a session *)

(** C6. A frame of a running session after which an obstacle overlaps the
    bird and the bird also touches the ground or ceiling band ends the
    session once: the state becomes [GameOver], the end-of-session effects
    are emitted once, the score counted in that frame is kept, and any
    further end signal or frame leaves the state as it is. The end signal
    is idempotent in every state. *)
Theorem endGame_once (w w' : World) :
  Running w ->
  update w = Some w' ->
  hits_throne w' = true ->
  hits_band (bird w') = true ->
  GameOver w'
  /\ trace w' = trace w ++ [OverlayShow; MusicPause]
  /\ score (gameState w')
     = (score (gameState w)
        + credits_from 0 (currentThroneSpeed (gameState w')) (Bird.x (bird w))
                       (thrones w))%Z
  /\ endGame w' = w'
  /\ update w' = Some w'
  /\ (forall u, endGame (endGame u) = endGame u)
  /\ (forall u, GameOver u -> endGame u = u /\ update u = Some u).
Proof.
  intros HR Hu Ht Hb.
  assert (Hquiet : forall u, GameOver u -> endGame u = u /\ update u = Some u).
  { intros u [Hur Hug]. split; [by apply endGame_GameOver|].
    apply update_not_Running. intros [? _]. congruence. }
  pose proof (score_update w w' HR Hu) as Hs.
  rewrite <- (speed_update w w' HR Hu) in Hs.
  assert (GameOver w' /\ trace w' = trace w ++ [OverlayShow; MusicPause])
    as [HG Htr].
  { rewrite update_Running in Hu by done. injection Hu as <-.
    unfold hits_throne in Ht. autorewrite with frame in Ht, Hb.
    rewrite terminal_checks_spec. unfold hits_throne. rewrite Ht. simpl.
    rewrite endGame_fresh by apply HR. by split. }
  split; [exact HG|]. split; [exact Htr|]. split; [exact Hs|].
  split; [apply Hquiet, HG|]. split; [apply Hquiet, HG|].
  split; [apply endGame_idempotent|exact Hquiet].
Qed.

Lemma endGame_once_witness :
  Running doomed_session
  /\ exists w',
       update doomed_session = Some w'
       /\ hits_throne w' = true
       /\ hits_band (bird w') = true
       /\ GameOver w'
       /\ trace w' = trace doomed_session ++ [OverlayShow; MusicPause]
       /\ score (gameState w') = 3%Z.
Proof.
  assert (HR : Running doomed_session) by (split; reflexivity).
  destruct (update_total doomed_session) as [w' Hu].
  assert (Ht : hits_throne w' = true)
    by (vm_compute in Hu; injection Hu as <-; vm_compute; reflexivity).
  assert (Hb : hits_band (bird w') = true)
    by (vm_compute in Hu; injection Hu as <-; vm_compute; reflexivity).
  destruct (endGame_once doomed_session w' HR Hu Ht Hb) as (HG & Htr & Hs & _).
  split; [exact HR|]. exists w'.
  split; [exact Hu|]. split; [exact Ht|]. split; [exact Hb|].
  split; [exact HG|]. split; [exact Htr|].
  rewrite Hs. vm_compute. reflexivity.
Defined.

(** ** Obstacle speed *)

(** C4. In a frame of a running session the speed stored and used is
    [INITIAL_THRONE_SPEED + score * SPEED_INCREASE_RATE] for the score at
    the start of the frame: the obstacles that stay on the field are, in
    order, those of before with [x] decreased by exactly that speed, and the
    speed stored before the frame plays no part. *)
Theorem speed_recomputed (w : World) :
  Running w ->
  exists w',
    update w = Some w'
    /\ currentThroneSpeed (gameState w')
       = INITIAL_THRONE_SPEED + inject_Z (score (gameState w)) * SPEED_INCREASE_RATE
    /\ map Throne.x (thrones w')
       = map (fun t => Throne.x t - currentThroneSpeed (gameState w'))
             (List.filter
                (fun t => negb (Qltb (Throne.x t - currentThroneSpeed (gameState w')
                                      + Throne.width t) 0))
                (thrones w))
    /\ forall stale,
         update (with_gameState (set_currentThroneSpeed stale) w) = update w.
Proof.
  intros HR. destruct (update_total w) as [w' Hu]. exists w'.
  pose proof (speed_update w w' HR Hu) as Hv.
  split; [done|]. split; [exact Hv|]. split.
  - rewrite (thrones_update w w' HR Hu), Hv, sweep_filter_first, map_map.
    apply map_ext. intros t. apply x_advance.
  - intros stale. rewrite !update_Running; [done|exact HR|exact HR].
Qed.

Lemma speed_recomputed_witness :
  Running passing_session
  /\ exists w',
       update passing_session = Some w'
       /\ currentThroneSpeed (gameState w') == 12
       /\ score (gameState w') = 1%Z
       /\ map Throne.x (thrones w') = [50 - (12 + 0 * 0.1); 50 - (12 + 0 * 0.1)].
Proof.
  assert (HR : Running passing_session) by (split; reflexivity).
  destruct (speed_recomputed passing_session HR) as (w' & Hu & Hv & Hx & _).
  split; [exact HR|]. exists w'. split; [exact Hu|].
  split; [rewrite Hv; reflexivity|].
  split.
  - assert (update passing_session = Some w') as Hu' by exact Hu.
    vm_compute in Hu'. injection Hu' as <-. reflexivity.
  - rewrite Hx, Hv. reflexivity.
Defined.

(** ** Removal of obstacles that left the field *)

(** C9. After a frame of a running session no obstacle with
    [x + width < 0] is left, and no obstacle was skipped by the removal
    pass: every obstacle of before the frame was advanced, and is either
    still there, advanced, or had left the field. *)
Theorem no_offscreen_throne_after_update (w : World) :
  Running w ->
  exists w',
    update w = Some w'
    /\ (forall t', In t' (thrones w') -> ~ Throne.x t' + Throne.width t' < 0)
    /\ (forall t, In t (thrones w) ->
          let t' := advance (currentThroneSpeed (gameState w')) (Bird.x (bird w)) t in
          Throne.x t' + Throne.width t' < 0 \/ In t' (thrones w'))
    /\ (length (thrones w') <= length (thrones w))%nat.
Proof.
  intros HR. destruct (update_total w) as [w' Hu]. exists w'.
  pose proof (thrones_update w w' HR Hu) as Ht.
  pose proof (speed_update w w' HR Hu) as Hv.
  split; [done|]. split; [|split].
  - intros t'. rewrite Ht, In_sweep. intros (t & _ & _ & Hoff).
    apply Qle_not_lt. by apply Qltb_ge.
  - intros t Hin t'. subst t'. rewrite Hv.
    destruct (offscreen (advance (speed_of_score (score (gameState w)))
                                 (Bird.x (bird w)) t)) eqn:Hoff.
    + left. by apply Qltb_lt.
    + right. rewrite Ht, In_sweep. eauto.
  - rewrite Ht. unfold sweep.
    etransitivity; [apply List.filter_length_le|]. by rewrite length_map.
Qed.

Lemma no_offscreen_throne_after_update_witness :
  Running leaving_session
  /\ exists w',
       update leaving_session = Some w'
       /\ length (thrones w') = 2%nat
       /\ forall t', In t' (thrones w') -> ~ Throne.x t' + Throne.width t' < 0.
Proof.
  assert (HR : Running leaving_session) by (split; reflexivity).
  destruct (no_offscreen_throne_after_update leaving_session HR)
    as (w' & Hu & Hoff & _ & _).
  split; [exact HR|]. exists w'. split; [exact Hu|]. split; [|exact Hoff].
  assert (update leaving_session = Some w') as Hu' by exact Hu.
  vm_compute in Hu'. injection Hu' as <-. reflexivity.
Defined.

(** ** The gap of a spawned pair *)

(** Every draw puts the gap start in [(maxGapY, minGapY]], that is, in
    (-120, 400]. *)
Lemma gapY_range (rnd : Q) :
  is_draw rnd -> -120 < gapY rnd /\ gapY rnd <= 400.
Proof.
  intros [H0 H1]. unfold gapY, maxGapY, minGapY, CANVAS_HEIGHT, THRONE_GAP. lra.
Qed.

(** For every draw the gap ends less than [minGapY] above the bottom of the
    field, and it starts [minGapY] below the top only for the draw 0. *)
Lemma gapY_never_within_margins (rnd : Q) :
  is_draw rnd ->
  ~ gapY rnd + THRONE_GAP <= CANVAS_HEIGHT - minGapY
  /\ (minGapY <= gapY rnd -> rnd == 0).
Proof.
  intros [H0 H1]. unfold gapY, maxGapY, minGapY, CANVAS_HEIGHT, THRONE_GAP.
  split; [|intros H]; lra.
Qed.

(** C1, evaluated on the code. When [Math.random()] returns 0.5 in a
    running session, the pair that is spawned has its gap from 140 to 940:
    the gap starts less than [minGapY] below the top of the field and ends
    less than [minGapY] above its bottom, and the interval the draw is meant
    to come from, [[minGapY, maxGapY]], is empty. *)
Theorem spawnThrone_gap_outside_margins :
  is_draw 0.5
  /\ Running (setup initial)
  /\ thrones (spawnThrone 0.5 (setup initial)) = [top_throne 0.5; bottom_throne 0.5]
  /\ Throne.height (top_throne 0.5) == 140
  /\ Throne.y (bottom_throne 0.5) == 940
  /\ gapY 0.5 == 140
  /\ ~ minGapY <= gapY 0.5
  /\ ~ gapY 0.5 + THRONE_GAP <= CANVAS_HEIGHT - minGapY
  /\ maxGapY < minGapY.
Proof.
  split; [split; vm_compute; congruence|].
  split; [split; reflexivity|].
  split; [reflexivity|].
  split; [reflexivity|]. split; [reflexivity|]. split; [reflexivity|].
  split; [vm_compute; congruence|]. split; [vm_compute; congruence|].
  reflexivity.
Qed.

(** ** Gravity and the jump impulse *)

Lemma velocity_sum_closed (n : nat) :
  velocity_sum n == inject_Z (Z.of_nat n * (Z.of_nat n + 1)) * (GRAVITY / 2).
Proof.
  induction n as [|n IH].
  - reflexivity.
  - cbn [velocity_sum]. rewrite IH, Nat2Z.inj_succ, <- Z.add_1_r.
    rewrite !inject_Z_mult, !inject_Z_plus. unfold GRAVITY. field.
Qed.

Lemma update_ground (w w' : World) :
  Running w -> update w = Some w' ->
  groundY <= Bird.y (bird w') + Bird.height (bird w') -> GameOver w'.
Proof.
  intros HR. rewrite update_Running by done. intros [= <-].
  rewrite bird_terminal_checks, terminal_checks_spec. intros Hg.
  apply Qleb_le in Hg. unfold hits_band. rewrite Hg, orb_true_r; simpl.
  rewrite endGame_fresh by apply HR. split; reflexivity.
Qed.

(** Free fall: [n] frames, each run while the session is running. *)
Lemma free_fall (n : nat) : forall w wn,
  Bird.velocity (bird w) == 0 ->
  run (repeat Tick n) w = Some wn ->
  (forall k wk, (k < n)%nat -> run (repeat Tick k) w = Some wk -> Running wk) ->
  Bird.velocity (bird wn) == inject_Z (Z.of_nat n) * GRAVITY
  /\ Bird.y (bird wn) == Bird.y (bird w) + velocity_sum n.
Proof.
  induction n as [|n IH]; intros w wn Hv Hrun Hall.
  - simpl in Hrun. injection Hrun as <-. rewrite Hv. simpl. split; ring.
  - rewrite run_ticks_S in Hrun.
    destruct (run (repeat Tick n) w) as [wk|] eqn:Hk; [|done].
    assert (Running wk) as HR by (apply (Hall n); [lia|done]).
    destruct (IH w wk Hv Hk) as [IHv IHy].
    { intros k wk' Hlt. apply Hall. lia. }
    rewrite (bird_update wk wn HR Hrun). unfold moved_bird; simpl.
    rewrite IHv, IHy. rewrite Nat2Z.inj_succ, <- Z.add_1_r, inject_Z_plus.
    split; ring.
Qed.

(** C3. In a frame of a running session the velocity grows by exactly
    [GRAVITY] and the position then grows by the new velocity; if the bird
    then reaches the ground line the session is over. A [jump] in a running
    session sets the velocity to [JUMP_STRENGTH] whatever it was, and
    changes nothing else of the bird. Hence, from velocity 0 and without
    jumps, after [n] frames of a running session the velocity is
    [n * GRAVITY] and the position is the start position plus the sum of the
    velocities. *)
Theorem gravity_and_jump (w : World) :
  Running w ->
  (exists w',
     update w = Some w'
     /\ Bird.velocity (bird w') = Bird.velocity (bird w) + GRAVITY
     /\ Bird.y (bird w') = Bird.y (bird w) + Bird.velocity (bird w')
     /\ (groundY <= Bird.y (bird w') + Bird.height (bird w') -> GameOver w'))
  /\ (Bird.velocity (bird (jump w)) = JUMP_STRENGTH
      /\ Bird.y (bird (jump w)) = Bird.y (bird w)
      /\ Running (jump w))
  /\ (forall n wn,
        Bird.velocity (bird w) == 0 ->
        run (repeat Tick n) w = Some wn ->
        (forall k wk, (k < n)%nat -> run (repeat Tick k) w = Some wk -> Running wk) ->
        Bird.velocity (bird wn) == inject_Z (Z.of_nat n) * GRAVITY
        /\ Bird.y (bird wn) == Bird.y (bird w) + velocity_sum n).
Proof.
  intros HR. split; [|split].
  - destruct (update_total w) as [w' Hu]. exists w'.
    pose proof (bird_update w w' HR Hu) as Hb.
    split; [done|]. split; [by rewrite Hb|]. split; [by rewrite Hb|].
    by apply (update_ground w).
  - destruct HR as [Hr Hg]. unfold jump.
    destruct (negb (musicStarted (gameState w))); simpl; rewrite Hr, Hg; simpl;
      repeat split; done.
  - intros n wn. apply free_fall.
Qed.

Lemma gravity_and_jump_witness :
  Running started
  /\ Bird.velocity (bird started) == 0
  /\ (exists w1,
        update started = Some w1
        /\ Bird.velocity (bird w1) == 0.5
        /\ Bird.y (bird w1) == 540.5)
  /\ Bird.velocity (bird (jump started)) = -8
  /\ (exists w3,
        run (repeat Tick 3) started = Some w3
        /\ Bird.velocity (bird w3) == 1.5
        /\ Bird.y (bird w3) == 543).
Proof.
  assert (HR : Running started) by (split; reflexivity).
  destruct (gravity_and_jump started HR) as ((w1 & Hu & Hv & Hy & _) & (Hj & _) & Hfall).
  split; [exact HR|]. split; [reflexivity|]. split; [|split].
  - exists w1. split; [exact Hu|]. rewrite Hy, Hv. split; reflexivity.
  - exact Hj.
  - destruct (run_total (repeat Tick 3) started) as [w3 H3]. exists w3.
    split; [exact H3|].
    destruct (Hfall 3%nat w3) as [Hv3 Hy3].
    + reflexivity.
    + exact H3.
    + intros k wk Hk Hrun.
      destruct k as [|[|[|k]]]; [| | |lia];
        vm_compute in Hrun; injection Hrun as <-; split; reflexivity.
    + rewrite Hv3, Hy3. split; reflexivity.
Defined.

(** The scenario of a session left alone: the bird falls for 28 frames, the
    29th frame ends the session at velocity 14.5 and position 757.5, and
    the frames after that change nothing. *)
Lemma free_fall_from_start :
  (forall k wk, (k < 29)%nat -> run (repeat Tick k) started = Some wk -> Running wk)
  /\ (exists w29,
        run (repeat Tick 29) started = Some w29
        /\ GameOver w29
        /\ Bird.velocity (bird w29) == 14.5
        /\ Bird.y (bird w29) == 757.5
        /\ run (repeat Tick 100) started = Some w29).
Proof.
  split.
  - intros k wk Hk Hrun.
    assert (forallb
              (fun k => match run (repeat Tick k) started with
                        | Some w => running (gameState w) && negb (gameOver (gameState w))
                        | None => false
                        end)
              (seq 0 29) = true) as Hall by (vm_compute; reflexivity).
    rewrite forallb_forall in Hall. specialize (Hall k).
    rewrite Hrun in Hall. unfold Running.
    destruct (running _), (gameOver _); try (split; reflexivity);
      exfalso; (assert (false = true) as Habs by (apply Hall, in_seq; lia));
      discriminate Habs.
  - destruct (run_total (repeat Tick 29) started) as [w29 H29]. exists w29.
    split; [exact H29|].
    assert (run (repeat Tick 100) started = run (repeat Tick 29) started) as H100
      by (vm_compute; reflexivity).
    rewrite H100. vm_compute in H29. injection H29 as <-.
    repeat split; reflexivity.
Qed.

(** ** Arrays of pairs *)

(** Induction on lists two elements at a time. *)
Lemma list_two_ind {A} (P : list A -> Prop) :
  P [] ->
  (forall a, P [a]) ->
  (forall a b rest, P rest -> P (a :: b :: rest)) ->
  forall l, P l.
Proof.
  intros Hnil Hone Hcons l.
  assert (forall n l, (length l <= n)%nat -> P l) as H.
  { clear l. induction n as [|n IH]; intros l Hlen.
    - destruct l; [done|simpl in Hlen; lia].
    - destruct l as [|a [|b rest]]; [done|done|].
      apply Hcons, IH. simpl in Hlen. lia. }
  by apply (H (length l)).
Qed.

Lemma paired_ind (P : list Throne.t -> Prop) :
  P [] ->
  (forall top bottom rest,
     matching top bottom -> paired rest -> P rest -> P (top :: bottom :: rest)) ->
  forall l, paired l -> P l.
Proof.
  intros Hnil Hcons l.
  induction l as [| |top bottom rest IH] using list_two_ind; [done|done|].
  intros [Hm Hp]. by apply Hcons; [| |apply IH].
Qed.

Lemma paired_app (l1 l2 : list Throne.t) :
  paired l1 -> paired l2 -> paired (l1 ++ l2).
Proof.
  intros H1 H2. induction H1 as [|top bottom rest Hm _ IH] using paired_ind; [done|].
  simpl. by split.
Qed.

Lemma paired_spawn (rnd : Q) : paired [top_throne rnd; bottom_throne rnd].
Proof. simpl. unfold matching; simpl. by repeat split. Qed.

Lemma paired_unpair (l : list Throne.t) :
  paired l ->
  exists ps, l = unpair ps /\ Forall (fun p => matching (fst p) (snd p)) ps.
Proof.
  intros H. induction H as [|top bottom rest Hm _ (ps & -> & Hps)] using paired_ind.
  - exists []. by split.
  - exists ((top, bottom) :: ps). split; [done|]. by constructor.
Qed.

Lemma unpair_length ps : length (unpair ps) = (2 * length ps)%nat.
Proof. induction ps as [|p ps IH]; simpl; [done|]. rewrite IH. lia. Qed.

Lemma unpair_lookup ps : forall k,
  unpair ps !! (2 * k)%nat = fst <$> ps !! k
  /\ unpair ps !! (2 * k + 1)%nat = snd <$> ps !! k.
Proof.
  induction ps as [|p ps IH]; intros k.
  - by rewrite !lookup_nil.
  - destruct k as [|k]; [done|].
    replace (2 * S k)%nat with (S (S (2 * k))) by lia.
    replace (S (S (2 * k)) + 1)%nat with (S (S (2 * k + 1))) by lia.
    simpl. apply IH.
Qed.

Lemma unpair_app ps1 ps2 : unpair (ps1 ++ ps2) = unpair ps1 ++ unpair ps2.
Proof. unfold unpair. by rewrite flat_map_app. Qed.

Lemma mod2_SS (i : nat) : (S (S i) mod 2 = i mod 2)%nat.
Proof.
  replace (S (S i)) with (i + 1 * 2)%nat by lia. apply Nat.Div0.mod_add.
Qed.

Lemma mod2_S (i : nat) : (i mod 2 = 0 -> S i mod 2 = 1)%nat.
Proof.
  intros H. replace (S i) with (1 + i)%nat by lia.
  rewrite <- Nat.Div0.add_mod_idemp_r, H. reflexivity.
Qed.

Section PairsPass.

Variables v bx : Q.

(** On an array of pairs whose first index is even, the increments of a
    pass are those of the top members. *)
Lemma credits_from_paired (l : list Throne.t) :
  paired l ->
  forall i, (i mod 2 = 0)%nat -> credits_from i v bx l = pair_credits v bx l.
Proof.
  intros H. induction H as [|top bottom rest _ _ IH] using paired_ind; intros i Hi.
  - done.
  - simpl. rewrite Hi, (mod2_S i Hi), andb_true_r, andb_false_r; simpl.
    rewrite IH by (by rewrite mod2_SS). lia.
Qed.

Lemma pair_credits_nonneg l : (0 <= pair_credits v bx l)%Z.
Proof.
  induction l as [| |top bottom rest IH] using list_two_ind; [done|done|].
  simpl. destruct (crossing _ _ _); lia.
Qed.

Lemma crossing_matching top bottom :
  matching top bottom -> crossing v bx bottom = crossing v bx top.
Proof.
  intros (_ & Hx & Hw & Hp & _). unfold crossing. by rewrite Hx, Hw, Hp.
Qed.

Lemma matching_advance top bottom :
  matching top bottom -> matching (advance v bx top) (advance v bx bottom).
Proof.
  intros Hm. pose proof (crossing_matching top bottom Hm) as Hc.
  destruct Hm as (Hy & Hx & Hw & Hp & Hg). unfold matching.
  rewrite !y_advance, !x_advance, !width_advance, !passed_advance, height_advance.
  by rewrite Hy, Hx, Hw, Hp, Hg, Hc.
Qed.

(** The two members of a pair leave the array in the same pass. *)
Lemma sweep_pair top bottom rest :
  matching top bottom ->
  sweep v bx (top :: bottom :: rest)
  = (if offscreen (advance v bx top) then []
     else [advance v bx top; advance v bx bottom])
    ++ sweep v bx rest.
Proof.
  intros (_ & Hx & Hw & _). unfold sweep; simpl.
  assert (offscreen (advance v bx bottom) = offscreen (advance v bx top)) as ->
    by (by rewrite !offscreen_advance, Hx, Hw).
  by destruct (offscreen _).
Qed.

Lemma paired_sweep l : paired l -> paired (sweep v bx l).
Proof.
  intros H. induction H as [|top bottom rest Hm _ IH] using paired_ind; [done|].
  rewrite sweep_pair by done.
  destruct (offscreen _); simpl; [done|]. split; [|done].
  by apply matching_advance.
Qed.

Lemma sweep_unpair ps :
  Forall (fun p => matching (fst p) (snd p)) ps ->
  sweep v bx (unpair ps) = unpair (sweep_pairs v bx ps).
Proof.
  induction 1 as [|[top bottom] ps Hm _ IH]; [done|].
  simpl in *. rewrite sweep_pair by done. unfold sweep_pairs; simpl.
  destruct (offscreen _); simpl; by rewrite IH.
Qed.

Hypothesis v_nonneg : 0 <= v.

(** An obstacle behind the bird stays behind it. *)
Lemma flag_ok_advance t : flag_ok bx t -> flag_ok bx (advance v bx t).
Proof using v_nonneg.
  unfold flag_ok. intros Hf.
  rewrite passed_advance, x_advance, width_advance. unfold crossing. rewrite Hf.
  destruct (Qltb (Throne.x t + Throne.width t) bx) eqn:E1,
           (Qltb (Throne.x t - v + Throne.width t) bx) eqn:E2; simpl; try done.
  cmp_to_order. lra.
Qed.

Lemma flag_ok_sweep l :
  Forall (flag_ok bx) l -> Forall (flag_ok bx) (sweep v bx l).
Proof using v_nonneg.
  intros Hl. apply List.Forall_forall. intros t'.
  rewrite In_sweep. intros (t & Hin & -> & _).
  apply flag_ok_advance.
  by apply (proj1 (List.Forall_forall _ _) Hl).
Qed.

End PairsPass.

Lemma speed_of_score_nonneg (s : Z) : (0 <= s)%Z -> 0 <= speed_of_score s.
Proof.
  intros Hs. unfold speed_of_score, INITIAL_THRONE_SPEED, SPEED_INCREASE_RATE.
  assert (0 <= inject_Z s) by (unfold Qle; simpl; lia). lra.
Qed.

(** ** The session invariant *)

Lemma session_inv_initial : session_inv initial.
Proof. unfold session_inv; simpl. repeat split; [constructor|lia]. Qed.

Lemma jump_cases (w : World) :
  Bird.x (bird (jump w)) = Bird.x (bird w)
  /\ if negb (running (gameState w)) || gameOver (gameState w)
     then thrones (jump w) = [] /\ score (gameState (jump w)) = 0%Z
     else thrones (jump w) = thrones w
          /\ score (gameState (jump w)) = score (gameState w).
Proof.
  destruct w as [[r o s v m] b l tr]. unfold jump; simpl.
  destruct m, r, o; simpl; repeat split; reflexivity.
Qed.

Lemma session_inv_update (w w' : World) :
  session_inv w -> update w = Some w' -> session_inv w'.
Proof.
  intros (Hp & Hf & Hx & Hs) Hu.
  destruct (Running_dec w) as [HR|HR].
  - assert (0 <= speed_of_score (score (gameState w))) as Hv
      by (by apply speed_of_score_nonneg).
    pose proof (pair_credits_nonneg (speed_of_score (score (gameState w)))
                  (Bird.x (bird w)) (thrones w)) as Hc.
    unfold session_inv.
    rewrite (thrones_update w w' HR Hu), (bird_update w w' HR Hu),
      (score_update w w' HR Hu).
    rewrite (credits_from_paired _ _ _ Hp 0%nat eq_refl). simpl.
    split; [by apply paired_sweep|]. split; [by apply flag_ok_sweep|].
    split; [done|lia].
  - rewrite update_not_Running in Hu by done. injection Hu as <-.
    by repeat split.
Qed.

Lemma session_inv_jump (w : World) : session_inv w -> session_inv (jump w).
Proof.
  intros (Hp & Hf & Hx & Hs). destruct (jump_cases w) as [Hbx Hc].
  unfold session_inv. rewrite Hbx.
  destruct (negb _ || _); destruct Hc as [-> ->].
  - simpl. split; [done|]. split; [constructor|]. split; [done|lia].
  - by repeat split.
Qed.

Lemma session_inv_spawnThrone (rnd : Q) (w : World) :
  session_inv w -> session_inv (spawnThrone rnd w).
Proof.
  intros (Hp & Hf & Hx & Hs).
  destruct (Running_dec w) as [HR|HR].
  - rewrite spawnThrone_Running by done.
    unfold session_inv; simpl. rewrite Hx in *.
    split; [apply paired_app; [done|apply paired_spawn]|].
    split; [|by split].
    apply Forall_app. split; [done|]. by repeat constructor.
  - unfold spawnThrone. rewrite (proj2 (guard_not_Running w) HR).
    by repeat split.
Qed.

Lemma flags_geometry (w : World) :
  session_inv w ->
  forall t, In t (thrones w) ->
    Throne.passed t = true <-> Throne.x t + Throne.width t < Bird.x (bird w).
Proof.
  intros (_ & Hf & _) t Hin.
  rewrite (proj1 (List.Forall_forall _ _) Hf t Hin). apply Qltb_lt.
Qed.

(** ** The ledger *)

(** The serial numbers listed as waiting are those of the pairs on the
    field whose top member has its trailing edge at or beyond the bird. *)
Lemma In_waiting_ids bx id : forall l ids,
  In id (waiting_ids bx l ids)
  <-> exists k top,
        ids !! k = Some id
        /\ l !! (2 * k)%nat = Some top
        /\ is_Some (l !! (2 * k + 1)%nat)
        /\ ~ Throne.x top + Throne.width top < bx.
Proof.
  intros l. induction l as [| |top bottom rest IH] using list_two_ind; intros ids.
  - simpl. split; [done|]. intros (k & t & _ & Hl & _). by rewrite lookup_nil in Hl.
  - simpl. split; [done|]. intros (k & t & _ & _ & [b Hb] & _).
    destruct k; simpl in Hb; by rewrite ?lookup_nil in Hb.
  - destruct ids as [|id0 ids].
    { simpl. split; [done|]. intros (k & t & Hk & _). by rewrite lookup_nil in Hk. }
    cbn [waiting_ids]. rewrite in_app_iff, (IH ids). split.
    + intros [Hin|(k & t & Hk & Hl & Hb & Hnp)].
      * destruct (Qltb _ bx) eqn:E; simpl in Hin; [done|].
        destruct Hin as [<-|[]]. exists 0%nat, top. simpl.
        split; [done|]. split; [done|]. split; [eauto|].
        apply Qle_not_lt. by apply Qltb_ge.
      * exists (S k), t.
        replace (2 * S k)%nat with (S (S (2 * k))) by lia.
        replace (S (S (2 * k)) + 1)%nat with (S (S (2 * k + 1))) by lia.
        by simpl.
    + intros (k & t & Hk & Hl & Hb & Hnp). destruct k as [|k].
      * simpl in Hk, Hl. injection Hk as <-. injection Hl as <-. left.
        destruct (Qltb _ bx) eqn:E; [|by left].
        apply Qltb_lt in E. contradiction.
      * right. exists k, t.
        replace (2 * S k)%nat with (S (S (2 * k))) in Hl, Hb by lia.
        replace (S (S (2 * k)) + 1)%nat with (S (S (2 * k + 1))) in Hb by lia.
        by simpl in *.
Qed.

Lemma waiting_ids_app bx l1 l2 ids2 :
  paired l1 ->
  forall ids1,
    length l1 = (2 * length ids1)%nat ->
    waiting_ids bx (l1 ++ l2) (ids1 ++ ids2)
    = waiting_ids bx l1 ids1 ++ waiting_ids bx l2 ids2.
Proof.
  intros H. induction H as [|top bottom rest _ _ IH] using paired_ind;
    intros [|id ids1] Hlen; simpl in Hlen; try lia; [done|].
  cbn [app waiting_ids]. rewrite IH by lia. by rewrite app_assoc.
Qed.

Section LedgerPass.

Variables v bx : Q.

Lemma length_survivors l :
  paired l ->
  forall ids,
    length l = (2 * length ids)%nat ->
    length (sweep v bx l) = (2 * length (survivors v bx l ids))%nat.
Proof.
  intros H. induction H as [|top bottom rest Hm _ IH] using paired_ind;
    intros [|id ids] Hlen; simpl in Hlen; try lia; [done|].
  rewrite sweep_pair by done. cbn [survivors].
  rewrite !length_app, (IH ids) by lia.
  destruct (offscreen _); simpl; lia.
Qed.

Lemma length_scorers l :
  paired l ->
  forall ids,
    length l = (2 * length ids)%nat ->
    pair_credits v bx l = Z.of_nat (length (scorers v bx l ids)).
Proof.
  intros H. induction H as [|top bottom rest Hm _ IH] using paired_ind;
    intros [|id ids] Hlen; simpl in Hlen; try lia; [done|].
  cbn [pair_credits scorers]. rewrite length_app, (IH ids) by lia.
  destruct (crossing _ _ _); simpl; lia.
Qed.

Hypothesis v_nonneg : 0 <= v.
Hypothesis bx_nonneg : 0 <= bx.

(** The pairs that were waiting before a pass are those that score in it
    and those that are still waiting after it. *)
Lemma waiting_ids_sweep l :
  paired l -> Forall (flag_ok bx) l ->
  forall ids,
    length l = (2 * length ids)%nat ->
    Permutation
      (scorers v bx l ids
       ++ waiting_ids bx (sweep v bx l) (survivors v bx l ids))
      (waiting_ids bx l ids).
Proof using v_nonneg bx_nonneg.
  intros H. induction H as [|top bottom rest Hm _ IH] using paired_ind;
    intros Hf [|id ids] Hlen; simpl in Hlen; try lia; [done|].
  apply Forall_cons in Hf as [Hft Hf]. apply Forall_cons in Hf as [_ Hf].
  specialize (IH Hf ids ltac:(lia)).
  rewrite sweep_pair by done. cbn [scorers survivors waiting_ids].
  unfold offscreen, crossing. rewrite x_advance, width_advance, Hft.
  destruct (Qltb (Throne.x top + Throne.width top) bx) eqn:E1,
           (Qltb (Throne.x top - v + Throne.width top) bx) eqn:E2,
           (Qltb (Throne.x top - v + Throne.width top) 0) eqn:E3;
    cbn [negb andb app waiting_ids];
    rewrite ?x_advance, ?width_advance, ?E2; cbn [app];
    try exact IH;
    try (apply perm_skip; exact IH);
    try (symmetry; apply Permutation_cons_app; symmetry; exact IH);
    cmp_to_order; lra.
Qed.

End LedgerPass.

Lemma ledger_inv_initial : ledger_inv initial opening.
Proof.
  split; [apply session_inv_initial|]. by repeat split.
Qed.

Lemma ledger_inv_step (e : Event) (w w' : World) (g : Ledger) :
  ledger_inv w g -> step e w = Some w' -> ledger_inv w' (ledger_step e w g).
Proof.
  intros (Hinv & Hlen & Hsc & Hperm) He. unfold ledger_step.
  destruct e; simpl in He.
  - (* a frame *)
    destruct (Running_dec w) as [HR|HR].
    + rewrite (proj2 (guard_Running w) HR).
      pose proof (session_inv_update w w' Hinv He) as Hinv'.
      destruct Hinv as (Hp & Hf & Hx & Hs).
      assert (0 <= speed_of_score (score (gameState w))) as Hv
        by (by apply speed_of_score_nonneg).
      assert (0 <= Bird.x (bird w)) as Hbx by (rewrite Hx; lra).
      unfold ledger_inv; cbn [live issued credited].
      split; [exact Hinv'|].
      rewrite (thrones_update w w' HR He), (bird_update w w' HR He),
        (score_update w w' HR He).
      cbn [moved_bird Bird.x].
      split; [by apply length_survivors|]. split.
      * rewrite (credits_from_paired _ _ _ Hp 0%nat eq_refl).
        rewrite (length_scorers _ _ _ Hp (live g) Hlen), length_app. lia.
      * rewrite <- app_assoc. etransitivity; [|exact Hperm].
        apply Permutation_app_head. by apply waiting_ids_sweep.
    + rewrite (proj2 (guard_not_Running w) HR).
      rewrite update_not_Running in He by done. injection He as <-.
      exact (conj Hinv (conj Hlen (conj Hsc Hperm))).
  - (* a key press *)
    injection He as <-.
    pose proof (session_inv_jump w Hinv) as Hinv'.
    destruct (jump_cases w) as [Hbx Hc].
    destruct (negb _ || _).
    + destruct Hc as [Ht Hs]. unfold ledger_inv. rewrite Ht, Hs.
      split; [exact Hinv'|]. by repeat split.
    + destruct Hc as [Ht Hs]. unfold ledger_inv. rewrite Ht, Hs, Hbx.
      exact (conj Hinv' (conj Hlen (conj Hsc Hperm))).
  - (* a spawn timer *)
    injection He as <-.
    pose proof (session_inv_spawnThrone rnd w Hinv) as Hinv'.
    destruct (Running_dec w) as [HR|HR].
    + rewrite (proj2 (guard_Running w) HR).
      destruct Hinv as (Hp & Hf & Hx & Hs).
      unfold ledger_inv; cbn [live issued credited].
      split; [exact Hinv'|].
      rewrite spawnThrone_Running by done. cbn [thrones bird gameState].
      split; [rewrite !length_app; simpl; lia|]. split; [done|].
      rewrite waiting_ids_app by done. rewrite Hx in *.
      cbn [waiting_ids top_throne Throne.x Throne.width].
      assert (Qltb (CANVAS_WIDTH + THRONE_WIDTH) 400 = false) as -> by reflexivity.
      rewrite seq_S, app_nil_r, app_assoc. cbn [Nat.add].
      by apply Permutation_app_tail.
    + rewrite (proj2 (guard_not_Running w) HR).
      unfold spawnThrone. rewrite (proj2 (guard_not_Running w) HR).
      exact (conj Hinv (conj Hlen (conj Hsc Hperm))).
Qed.

(** The ledger agrees with the state along every run. *)
Lemma ledger_inv_run (es : list Event) : forall w g w',
  ledger_inv w g -> run es w = Some w' -> ledger_inv w' (ledger es w g).
Proof.
  induction es as [|e es IH]; intros w g w' Hinv Hrun; simpl in *.
  - by injection Hrun as <-.
  - destruct (step e w) as [w1|] eqn:He; [|done].
    apply (IH w1); [|done]. by apply (ledger_inv_step e w).
Qed.

Lemma session_inv_run (es : list Event) (w : World) :
  run es initial = Some w -> session_inv w.
Proof.
  intros Hrun. by apply (ledger_inv_run es initial opening w ledger_inv_initial).
Qed.

(** ** The index-parity invariant *)

(** C10. After any run of host calls from the start of the script the
    array of obstacles consists of whole pairs: it is [unpair ps] for a list
    [ps] of pairs, so its length is even, index [2k] holds the top member of
    pair [k] (with [y = 0]) and index [2k + 1] its bottom member, which has
    the same [x], starts [THRONE_GAP] below the end of the top member, and
    carries the same flag. Each operation keeps this shape: a spawn appends
    one pair, both members at [x = CANVAS_WIDTH]; a frame advances both
    members of every pair by the same speed and removes both members of a
    pair or neither; a reset empties the array. *)
Theorem thrones_are_pairs (es : list Event) (w : World) :
  run es initial = Some w ->
  exists ps : list (Throne.t * Throne.t),
    thrones w = unpair ps
    /\ length (thrones w) = (2 * length ps)%nat
    /\ (forall k, thrones w !! (2 * k)%nat = fst <$> ps !! k
                  /\ thrones w !! (2 * k + 1)%nat = snd <$> ps !! k)
    /\ Forall (fun p => Throne.y (fst p) = 0
                        /\ Throne.x (snd p) = Throne.x (fst p)
                        /\ Throne.width (snd p) = Throne.width (fst p)
                        /\ Throne.passed (snd p) = Throne.passed (fst p)
                        /\ Throne.y (snd p) = Throne.height (fst p) + THRONE_GAP) ps
    /\ (forall rnd, Running w ->
          thrones (spawnThrone rnd w)
          = unpair (ps ++ [(top_throne rnd, bottom_throne rnd)])
          /\ Throne.x (top_throne rnd) = CANVAS_WIDTH
          /\ Throne.x (bottom_throne rnd) = CANVAS_WIDTH)
    /\ (forall w', Running w -> update w = Some w' ->
          let v := currentThroneSpeed (gameState w') in
          let bx := Bird.x (bird w) in
          thrones w'
          = unpair
              (List.filter
                 (fun p => negb (Qltb (Throne.x (fst p) + Throne.width (fst p)) 0))
                 (map (fun p => (advance v bx (fst p), advance v bx (snd p))) ps))
          /\ forall t, Throne.x (advance v bx t) = Throne.x t - v)
    /\ thrones (setup w) = [].
Proof.
  intros Hrun.
  destruct (session_inv_run es w Hrun) as (Hp & _).
  destruct (paired_unpair _ Hp) as (ps & Hl & Hm). exists ps.
  split; [done|]. split; [by rewrite Hl, unpair_length|].
  split; [intros k; rewrite Hl; apply unpair_lookup|].
  split; [exact Hm|]. split; [|split; [|apply thrones_setup]].
  - intros rnd HR. rewrite spawnThrone_Running by done. simpl.
    by rewrite Hl, unpair_app.
  - intros w' HR Hu v bx. split; [|intros t; apply x_advance].
    subst v. rewrite (speed_update w w' HR Hu).
    rewrite (thrones_update w w' HR Hu), Hl. by apply sweep_unpair.
Qed.

Lemma thrones_are_pairs_witness :
  exists w ps,
    run two_pairs_run initial = Some w
    /\ thrones w = unpair ps
    /\ length ps = 2%nat
    /\ Forall (fun p => Throne.y (fst p) = 0
                        /\ Throne.x (snd p) = Throne.x (fst p)
                        /\ Throne.width (snd p) = Throne.width (fst p)
                        /\ Throne.passed (snd p) = Throne.passed (fst p)
                        /\ Throne.y (snd p) = Throne.height (fst p) + THRONE_GAP) ps.
Proof.
  destruct (run_total two_pairs_run initial) as [w Hw].
  destruct (thrones_are_pairs two_pairs_run w Hw) as (ps & Hl & Hlen & _ & Hm & _).
  exists w, ps. split; [exact Hw|]. split; [exact Hl|]. split; [|exact Hm].
  assert (match run two_pairs_run initial with
          | Some w => length (thrones w)
          | None => 0%nat
          end = 4%nat) as H4 by (vm_compute; reflexivity).
  rewrite Hw, Hlen in H4. lia.
Defined.

(** ** Scoring *)

(** C2. Along any run of host calls from the start of the script, number
    the pairs of a session in spawn order and record, at each increment of
    the score, the number of the pair at whose top member it happened. Then
    the score is the number of records, no pair is recorded twice, and a
    pair is recorded exactly when it is not waiting, that is, when it has
    left the field or the trailing edge of its members (which share [x] and
    [width]) is behind the bird; a waiting pair has no record yet. In a
    frame the increments are those found at even indices, one for each pair
    whose top member gets flagged, and an obstacle on the field is flagged
    exactly when its trailing edge is behind the bird. *)
Theorem one_point_per_pair (es : list Event) (w : World) :
  run es initial = Some w ->
  let g := ledger es initial opening in
  let bx := Bird.x (bird w) in
  score (gameState w) = Z.of_nat (length (credited g))
  /\ NoDup (credited g)
  /\ (forall id, In id (credited g) -> (id < issued g)%nat)
  /\ (forall id, (id < issued g)%nat ->
        In id (credited g) <-> ~ In id (waiting_ids bx (thrones w) (live g)))
  /\ (forall id,
        In id (waiting_ids bx (thrones w) (live g))
        <-> exists k top,
              live g !! k = Some id
              /\ thrones w !! (2 * k)%nat = Some top
              /\ is_Some (thrones w !! (2 * k + 1)%nat)
              /\ ~ Throne.x top + Throne.width top < bx)
  /\ paired (thrones w)
  /\ length (thrones w) = (2 * length (live g))%nat
  /\ (forall t, In t (thrones w) ->
        Throne.passed t = true <-> Throne.x t + Throne.width t < bx)
  /\ (forall w', Running w -> update w = Some w' ->
        let v := currentThroneSpeed (gameState w') in
        score (gameState w')
        = (score (gameState w) + credits_from 0 v bx (thrones w))%Z
        /\ credits_from 0 v bx (thrones w)
           = Z.of_nat (length (scorers v bx (thrones w) (live g)))).
Proof.
  intros Hrun g bx.
  destruct (ledger_inv_run es initial opening w ledger_inv_initial Hrun)
    as (Hinv & Hlen & Hsc & Hperm).
  fold g in Hinv, Hlen, Hsc, Hperm. fold bx in Hperm.
  pose proof (flags_geometry _ Hinv) as Hgeo.
  destruct Hinv as (Hp & _).
  assert (NoDup (credited g ++ waiting_ids bx (thrones w) (live g))) as Hnd.
  { rewrite Hperm. apply NoDup_seq. }
  apply NoDup_app in Hnd as (Hnd & Hdisj & _).
  split; [exact Hsc|]. split; [exact Hnd|]. split; [|split; [|split]].
  - intros id Hin.
    assert (In id (seq 0 (issued g))) as Hseq.
    { eapply Permutation_in; [exact Hperm|]. apply in_app_iff. by left. }
    apply in_seq in Hseq. lia.
  - intros id Hid. split.
    + intros Hin Hw. apply (Hdisj id); by apply list_elem_of_In.
    + intros Hw.
      assert (In id (credited g ++ waiting_ids bx (thrones w) (live g))) as Hin.
      { eapply Permutation_in; [symmetry; exact Hperm|]. apply in_seq. lia. }
      apply in_app_iff in Hin as [Hin|Hin]; [exact Hin|contradiction].
  - intros id. apply In_waiting_ids.
  - split; [exact Hp|]. split; [exact Hlen|]. split; [exact Hgeo|].
    intros w' HR Hu v. subst v. rewrite (speed_update w w' HR Hu).
    split; [by apply score_update|].
    rewrite (credits_from_paired _ _ _ Hp 0%nat eq_refl).
    by apply length_scorers.
Qed.

Lemma one_point_per_pair_witness :
  exists w,
    run (flight 5 ++ [Jump; Tick; Tick]) initial = Some w
    /\ score (gameState w) = 1%Z
    /\ ledger (flight 5 ++ [Jump; Tick; Tick]) initial opening = mkLedger [0%nat] 1 [0%nat]
    /\ length (thrones w) = 2%nat
    /\ NoDup (credited (ledger (flight 5 ++ [Jump; Tick; Tick]) initial opening)).
Proof.
  destruct (run_total (flight 5 ++ [Jump; Tick; Tick]) initial) as [w Hw].
  destruct (one_point_per_pair _ w Hw) as (_ & Hnd & _).
  assert (match run (flight 5 ++ [Jump; Tick; Tick]) initial with
          | Some w => Some (score (gameState w), length (thrones w))
          | None => None
          end = Some (1%Z, 2%nat)) as Ho
    by (vm_compute; reflexivity).
  rewrite Hw in Ho.
  pose proof (f_equal (fun o => match o with Some (a, _) => a | None => 0%Z end) Ho)
    as Hscore.
  pose proof (f_equal (fun o => match o with Some (_, b) => b | None => 0%nat end) Ho)
    as Hlen.
  cbv beta iota in Hscore, Hlen.
  exists w. split; [exact Hw|]. split; [exact Hscore|].
  split; [vm_compute; reflexivity|]. split; [exact Hlen|exact Hnd].
Defined.

(** The same session one frame earlier has not scored yet, and 60 frames
    later the pair has left the field with its point kept. *)
Lemma flight_outcomes :
  outcome (flight 5 ++ [Jump; Tick]) = Some (0%Z, 2%nat, mkLedger [0%nat] 1 [])
  /\ outcome (flight 7) = Some (1%Z, 0%nat, mkLedger [] 1 [0%nat]).
Proof. split; vm_compute; reflexivity. Qed.

(** * Part IV: further properties of the engine *)

(** ** Helpers *)

Lemma run_invariant (P : World -> Prop) :
  (forall e w w', P w -> step e w = Some w' -> P w') ->
  forall es w w', P w -> run es w = Some w' -> P w'.
Proof.
  intros Hstep. induction es as [|e es IH]; intros w w' HP Hrun; simpl in Hrun.
  - by injection Hrun as <-.
  - destruct (step e w) as [w1|] eqn:He; [|done]. eauto.
Qed.

Lemma gameState_update (w w' : World) :
  Running w -> update w = Some w' ->
  (Running w' \/ GameOver w')
  /\ musicStarted (gameState w') = musicStarted (gameState w).
Proof.
  intros HR. rewrite update_Running by done. intros [= <-].
  rewrite terminal_checks_spec. destruct (_ || _).
  - rewrite endGame_fresh by apply HR. split; [right; by split|done].
  - split; [left; exact HR|done].
Qed.

Lemma jump_Running (w : World) :
  Running w ->
  jump w
  = mkWorld (set_musicStarted true (gameState w))
            (set_bird_velocity JUMP_STRENGTH (bird w))
            (thrones w)
            (trace w ++ music_prelude w ++ [JumpSoundPlay]).
Proof.
  intros [Hr Hg]. destruct w as [[r o s v m] b l tr]; simpl in *. subst r o.
  destruct m;
    cbv [jump music_prelude emit with_gameState with_bird negb
         gameState running gameOver score currentThroneSpeed musicStarted
         bird thrones trace set_musicStarted];
    rewrite <- ?app_assoc; reflexivity.
Qed.

Lemma spawnThrone_fields (rnd : Q) (w : World) :
  gameState (spawnThrone rnd w) = gameState w
  /\ bird (spawnThrone rnd w) = bird w.
Proof.
  unfold spawnThrone. by destruct (negb _ || _).
Qed.

(** ** No host call makes the engine throw *)

(** X1. From any state, whatever the obstacle array holds, every sequence
    of frames, key presses and timer firings runs to the end: the loop of
    [update] never reads [thrones[i]] outside the array, although it
    removes elements while it runs. *)
Theorem run_never_throws (es : list Event) (w : World) :
  exists w', run es w = Some w'.
Proof. destruct (run_total es w) as [w' H]. eauto. Qed.

(** ** The lifecycle along a run *)

Lemma lifecycle_step (b : bool) (e : Event) (w w' : World) :
  (if b then (Running w \/ GameOver w) /\ musicStarted (gameState w) = true
   else Idle w /\ musicStarted (gameState w) = false) ->
  step e w = Some w' ->
  let b' := b || match e with Jump => true | _ => false end in
  if b' then (Running w' \/ GameOver w') /\ musicStarted (gameState w') = true
  else Idle w' /\ musicStarted (gameState w') = false.
Proof.
  intros Hb He. destruct e; simpl in He.
  - (* a frame *)
    rewrite orb_false_r. cbv zeta.
    destruct (Running_dec w) as [HR|HR].
    + destruct (gameState_update w w' HR He) as [Hl Hm]. rewrite Hm.
      destruct b; [split; [exact Hl|apply Hb]|].
      destruct Hb as [[Hr _] _]. destruct HR as [Hr' _]. congruence.
    + rewrite update_not_Running in He by done. by injection He as <-.
  - (* a key press *)
    rewrite orb_true_r. cbv zeta. injection He as <-.
    destruct (Running_dec w) as [HR|HR].
    + rewrite jump_Running by done. split; [left; exact HR|done].
    + assert (running (gameState w) = false) as Hr.
      { destruct b.
        - destruct Hb as [[HR'|[Hr _]] _]; [contradiction|done].
        - apply Hb. }
      rewrite jump_not_running by done. split; [left; by split|done].
  - (* a spawn timer *)
    rewrite orb_false_r. cbv zeta. injection He as <-.
    unfold Running, GameOver, Idle in *.
    by rewrite (proj1 (spawnThrone_fields rnd w)).
Qed.

Lemma lifecycle_run (es : list Event) : forall (b : bool) w w',
  (if b then (Running w \/ GameOver w) /\ musicStarted (gameState w) = true
   else Idle w /\ musicStarted (gameState w) = false) ->
  run es w = Some w' ->
  if b || has_jump es
  then (Running w' \/ GameOver w') /\ musicStarted (gameState w') = true
  else Idle w' /\ musicStarted (gameState w') = false.
Proof.
  induction es as [|e es IH]; intros b w w' Hb Hrun; simpl in Hrun.
  - injection Hrun as <-. simpl. by rewrite orb_false_r.
  - destruct (step e w) as [w1|] eqn:He; [|done].
    pose proof (lifecycle_step b e w w1 Hb He) as H1. cbv zeta in H1.
    specialize (IH _ _ _ H1 Hrun).
    unfold has_jump in *. simpl. by rewrite orb_assoc.
Qed.

(** X2. Along any run from the start of the script the two lifecycle flags
    are never both set, so the second test of [jump] never fires; the
    session is idle exactly as long as no key press or click has occurred,
    and after the first one it is running or over, never idle again;
    [musicStarted] is set exactly from the first key press on. *)
Theorem lifecycle_along_run (es : list Event) (w : World) :
  run es initial = Some w ->
  ~ (running (gameState w) = true /\ gameOver (gameState w) = true)
  /\ (Idle w <-> has_jump es = false)
  /\ (Running w \/ GameOver w <-> has_jump es = true)
  /\ musicStarted (gameState w) = has_jump es.
Proof.
  intros Hrun.
  pose proof (lifecycle_run es false initial w (conj (conj eq_refl eq_refl) eq_refl) Hrun)
    as H.
  simpl in H. unfold Idle, Running, GameOver in *.
  destruct (has_jump es), (running _), (gameOver _), (musicStarted _);
    intuition congruence.
Qed.

Lemma lifecycle_along_run_witness :
  exists w,
    run (Jump :: repeat Tick 40) initial = Some w
    /\ GameOver w
    /\ musicStarted (gameState w) = true.
Proof.
  destruct (run_total (Jump :: repeat Tick 40) initial) as [w Hw].
  destruct (lifecycle_along_run _ w Hw) as (_ & _ & Hl & Hm).
  exists w. split; [exact Hw|]. split; [|rewrite Hm; reflexivity].
  assert (match run (Jump :: repeat Tick 40) initial with
          | Some w => gameOver (gameState w)
          | None => false
          end = true) as Hg by (vm_compute; reflexivity).
  rewrite Hw in Hg.
  destruct (proj2 Hl eq_refl) as [[_ HR]|HG]; [congruence|exact HG].
Defined.

(** ** The score along a run *)

Lemma credits_from_bounds (v bx : Q) (l : list Throne.t) : forall i,
  (0 <= credits_from i v bx l)%Z
  /\ (2 * credits_from i v bx l <= Z.of_nat (length l) + 1)%Z.
Proof.
  induction l as [|a|a b rest IH] using list_two_ind; intros i.
  - simpl. lia.
  - simpl. destruct (_ && _); lia.
  - specialize (IH (S (S i))). cbn [credits_from length].
    assert ((i mod 2 =? 0)%nat = true -> (S i mod 2 =? 0)%nat = false) as Hpar.
    { intros H. apply Nat.eqb_eq in H. apply mod2_S in H.
      apply Nat.eqb_neq. lia. }
    destruct (crossing v bx a), (crossing v bx b),
             (i mod 2 =? 0)%nat, (S i mod 2 =? 0)%nat; simpl;
      try (specialize (Hpar eq_refl); discriminate Hpar); lia.
Qed.

(** X3. A host call never lowers the score, except a key press that
    restarts the session, which sets it to 0. Only a frame raises it, and
    by at most one point for every two obstacles of the array. *)
Theorem score_only_drops_on_restart (e : Event) (w w' : World) :
  step e w = Some w' ->
  ((score (gameState w) <= score (gameState w'))%Z
   /\ (2 * (score (gameState w') - score (gameState w))
       <= Z.of_nat (length (thrones w)) + 1)%Z
   /\ (e <> Tick -> score (gameState w') = score (gameState w)))
  \/ (e = Jump /\ ~ Running w /\ score (gameState w') = 0%Z).
Proof.
  intros He. destruct e; simpl in He.
  - left. destruct (Running_dec w) as [HR|HR].
    + rewrite (score_update w w' HR He).
      destruct (credits_from_bounds (speed_of_score (score (gameState w)))
                  (Bird.x (bird w)) (thrones w) 0) as [H0 H1].
      split; [lia|]. split; [lia|done].
    + rewrite update_not_Running in He by done. injection He as <-.
      split; [lia|]. split; [lia|done].
  - injection He as <-. destruct (Running_dec w) as [HR|HR].
    + left. rewrite jump_Running by done. simpl. split; [lia|]. split; [lia|done].
    + right. split; [done|]. split; [done|].
      destruct (jump_cases w) as [_ Hc].
      rewrite (proj2 (guard_not_Running w) HR) in Hc. apply Hc.
  - injection He as <-. left.
    rewrite (proj1 (spawnThrone_fields rnd w)). split; [lia|]. split; [lia|done].
Qed.

Lemma score_only_drops_on_restart_witness :
  exists w',
    step Tick passing_session = Some w'
    /\ score (gameState passing_session) = 0%Z
    /\ score (gameState w') = 1%Z
    /\ (score (gameState passing_session) <= score (gameState w'))%Z.
Proof.
  destruct (step_total Tick passing_session) as [w' Hw].
  destruct (score_only_drops_on_restart Tick passing_session w' Hw)
    as [(Hle & _)|(Habs & _)]; [|discriminate Habs].
  exists w'. split; [exact Hw|]. split; [reflexivity|]. split; [|exact Hle].
  assert (step Tick passing_session = Some w') as Hw' by exact Hw.
  vm_compute in Hw'. injection Hw' as <-. reflexivity.
Defined.

(** ** The order of the obstacles *)

Section Order.

Variables v bx : Q.

Lemma ordered_filter (f : Throne.t -> bool) l :
  ordered l -> ordered (List.filter f l).
Proof.
  induction l as [|t l IH]; simpl; [done|]. intros [Hall Hord].
  destruct (f t); simpl; [|by apply IH]. split; [|by apply IH].
  apply List.Forall_forall. intros u Hu. apply filter_In in Hu as [Hu _].
  by apply (proj1 (List.Forall_forall _ _) Hall).
Qed.

Lemma ordered_map_advance l : ordered l -> ordered (map (advance v bx) l).
Proof.
  induction l as [|t l IH]; simpl; [done|]. intros [Hall Hord].
  split; [|by apply IH].
  apply List.Forall_forall. intros u' Hu. apply in_map_iff in Hu as (u & <- & Hu).
  rewrite !x_advance.
  pose proof (proj1 (List.Forall_forall _ _) Hall u Hu) as Hle. simpl in Hle. lra.
Qed.

Lemma ordered_sweep l : ordered l -> ordered (sweep v bx l).
Proof. intros H. unfold sweep. by apply ordered_filter, ordered_map_advance. Qed.

(** Among obstacles of one width that are ordered by [x], those that leave
    the field in a pass are the first ones of the array. *)
Lemma sweep_drops_prefix (width : Q) l :
  Forall (fun t => Throne.width t = width) l ->
  ordered l ->
  exists k, sweep v bx l = map (advance v bx) (drop k l).
Proof.
  rewrite sweep_filter_first.
  induction l as [|t l IH]; intros Hw Hord.
  - by exists 0%nat.
  - apply Forall_cons in Hw as [Hwt Hw]. destruct Hord as [Hall Hord].
    cbn [List.filter].
    destruct (Qltb (Throne.x t - v + Throne.width t) 0) eqn:Ht; cbn [negb].
    + destruct (IH Hw Hord) as [k Hk]. exists (S k). exact Hk.
    + exists 0%nat. cbn [drop]. f_equal. f_equal.
      assert (List.filter
                (fun u => negb (Qltb (Throne.x u - v + Throne.width u) 0)) l = l)
        as ->; [|done].
      apply forallb_filter_id. apply forallb_forall. intros u Hu.
      pose proof (proj1 (List.Forall_forall _ _) Hall u Hu) as Hle.
      pose proof (proj1 (List.Forall_forall _ _) Hw u Hu) as Hwu.
      simpl in Hle, Hwu. rewrite Hwu, <- Hwt.
      apply negb_true_iff, Qltb_ge. apply Qltb_ge in Ht. lra.
Qed.

End Order.

Lemma ordered_app l1 l2 :
  ordered l1 -> ordered l2 ->
  (forall a b, In a l1 -> In b l2 -> Throne.x a <= Throne.x b) ->
  ordered (l1 ++ l2).
Proof.
  induction l1 as [|t l1 IH]; simpl; [done|]. intros [Hall H1] H2 Hx.
  split; [|apply IH; auto].
  apply Forall_app. split; [done|].
  apply List.Forall_forall. intros b Hb. apply Hx; auto.
Qed.

Lemma Forall_sweep (P : Throne.t -> Prop) v bx l :
  (forall t, P t -> P (advance v bx t)) ->
  Forall P l -> Forall P (sweep v bx l).
Proof.
  intros HP Hl. apply List.Forall_forall. intros t'.
  rewrite In_sweep. intros (t & Hin & -> & _).
  apply HP. by apply (proj1 (List.Forall_forall _ _) Hl).
Qed.

Lemma order_inv_step (e : Event) (w w' : World) :
  order_inv w -> step e w = Some w' -> order_inv w'.
Proof.
  intros (Hw & Hx & Hord & Hs & Hv) He. destruct e; simpl in He.
  - destruct (Running_dec w) as [HR|HR].
    + pose proof (speed_of_score_nonneg _ Hs) as Hv0.
      destruct (credits_from_bounds (speed_of_score (score (gameState w)))
                  (Bird.x (bird w)) (thrones w) 0) as [Hc _].
      unfold order_inv.
      rewrite (thrones_update w w' HR He), (score_update w w' HR He),
        (speed_update w w' HR He).
      split; [apply Forall_sweep; [|done]; intros t; by rewrite width_advance|].
      split; [apply Forall_sweep; [|done]; intros t Ht; rewrite x_advance; lra|].
      split; [by apply ordered_sweep|]. split; [lia|].
      unfold speed_of_score, INITIAL_THRONE_SPEED, SPEED_INCREASE_RATE.
      assert (0 <= inject_Z (score (gameState w))) by (unfold Qle; simpl; lia).
      lra.
    + rewrite update_not_Running in He by done. by injection He as <-.
  - injection He as <-. destruct (Running_dec w) as [HR|HR].
    + rewrite jump_Running by done. by repeat split.
    + assert (running (gameState (jump w)) = true /\ thrones (jump w) = []
              /\ score (gameState (jump w)) = 0%Z
              /\ currentThroneSpeed (gameState (jump w)) = INITIAL_THRONE_SPEED)
        as (_ & Ht & Hs' & Hv').
      { apply guard_not_Running in HR.
        destruct w as [[r o s v m] b l tr]; simpl in HR.
        destruct m, r, o; try discriminate HR; by repeat split. }
      unfold order_inv. rewrite Ht, Hs', Hv'.
      split; [constructor|]. split; [constructor|]. split; [done|].
      split; [lia|apply Qle_refl].
  - injection He as <-. destruct (Running_dec w) as [HR|HR].
    + rewrite spawnThrone_Running by done. unfold order_inv; simpl.
      split; [apply Forall_app; split; [done|by repeat constructor]|].
      split; [apply Forall_app; split; [done|];
              repeat constructor; simpl; apply Qle_refl|].
      split; [|by split].
      apply ordered_app; [done| |].
      * simpl. repeat split; try constructor; try apply Qle_refl. constructor.
      * intros a b Ha [<-|[<-|[]]]; simpl;
          by apply (proj1 (List.Forall_forall _ _) Hx).
    + unfold spawnThrone. rewrite (proj2 (guard_not_Running w) HR).
      by repeat split.
Qed.

(** X4. Along any run from the start of the script the obstacles are
    ordered by [x] along the array (earlier pairs are never to the right of
    later ones), all have the width 360 and none is to the right of the
    spawn position; the stored speed is never below the initial speed; and
    the obstacles that a frame removes are the first ones of the array, the
    others keeping their order. *)
Theorem obstacles_leave_in_spawn_order (es : list Event) (w : World) :
  run es initial = Some w ->
  ordered (thrones w)
  /\ Forall (fun t => Throne.width t = THRONE_WIDTH /\ Throne.x t <= CANVAS_WIDTH)
            (thrones w)
  /\ INITIAL_THRONE_SPEED <= currentThroneSpeed (gameState w)
  /\ (forall w', Running w -> update w = Some w' ->
        exists k,
          thrones w'
          = map (advance (currentThroneSpeed (gameState w')) (Bird.x (bird w)))
                (drop k (thrones w))).
Proof.
  intros Hrun.
  assert (order_inv w) as (Hw & Hx & Hord & Hs & Hv).
  { apply (run_invariant order_inv order_inv_step es initial w); [|done].
    unfold order_inv; simpl.
    split; [constructor|]. split; [constructor|]. split; [done|].
    split; [lia|apply Qle_refl]. }
  split; [exact Hord|]. split; [|split; [exact Hv|]].
  - apply List.Forall_forall. intros t Ht. split.
    + by apply (proj1 (List.Forall_forall _ _) Hw).
    + by apply (proj1 (List.Forall_forall _ _) Hx).
  - intros w' HR Hu.
    rewrite (thrones_update w w' HR Hu), (speed_update w w' HR Hu).
    by apply (sweep_drops_prefix _ _ THRONE_WIDTH).
Qed.

Lemma obstacles_leave_in_spawn_order_witness :
  exists w,
    run two_pairs_run initial = Some w
    /\ ordered (thrones w)
    /\ length (thrones w) = 4%nat.
Proof.
  destruct (run_total two_pairs_run initial) as [w Hw].
  destruct (obstacles_leave_in_spawn_order two_pairs_run w Hw) as (Hord & _).
  exists w. split; [exact Hw|]. split; [exact Hord|].
  assert (match run two_pairs_run initial with
          | Some w => length (thrones w)
          | None => 0%nat
          end = 4%nat) as H4 by (vm_compute; reflexivity).
  by rewrite Hw in H4.
Defined.

(** ** The bird along a run *)

Lemma Running_after_update (w w' : World) :
  Running w -> update w = Some w' -> Running w' ->
  hits_throne w' = false /\ hits_band (bird w') = false /\ trace w' = trace w.
Proof.
  intros HR. rewrite update_Running by done. intros [= <-] HR'.
  rewrite terminal_checks_spec in *.
  destruct (hits_throne (advanced w) || hits_band (bird (advanced w))) eqn:Hc.
  - rewrite endGame_fresh in HR' by apply HR. destruct HR' as [Hr _].
    discriminate Hr.
  - apply orb_false_iff in Hc as [Ht Hb]. by repeat split.
Qed.

(** A key press outside a running session calls [setup]. *)
Lemma jump_restart (w : World) :
  ~ Running w ->
  gameState (jump w) = mkGameState true false 0 INITIAL_THRONE_SPEED true
  /\ bird (jump w)
     = Bird.mk (Bird.x (bird w)) (CANVAS_HEIGHT / 2)
               (Bird.width (bird w)) (Bird.height (bird w)) 0
  /\ thrones (jump w) = [].
Proof.
  intros HR. apply guard_not_Running in HR.
  destruct w as [[r o s v m] b l tr]; simpl in HR.
  destruct m, r, o; try discriminate HR; by repeat split.
Qed.

Lemma bird_inv_step (e : Event) (w w' : World) :
  bird_inv w -> step e w = Some w' -> bird_inv w'.
Proof.
  intros (Hx & Hw & Hh & Hv & Hband & Hidle) He. destruct e; simpl in He.
  - destruct (Running_dec w) as [HR|HR].
    + destruct (gameState_update w w' HR He) as [Hl _].
      pose proof (Running_after_update w w' HR He) as Hstay.
      unfold bird_inv. rewrite (bird_update w w' HR He) in *.
      cbn [moved_bird Bird.x Bird.y Bird.width Bird.height Bird.velocity] in *.
      split; [done|]. split; [done|]. split; [done|].
      split; [unfold JUMP_STRENGTH, GRAVITY in *; lra|]. split.
      * intros HR'. destruct (Hstay HR') as (_ & Hb & _).
        unfold hits_band in Hb. cbn [Bird.y Bird.height] in Hb.
        apply orb_false_iff in Hb as [Hg Hc]. cmp_to_order. by split.
      * intros [Hr Hg]. destruct Hl as [[Hr' _]|[_ Hg']]; congruence.
    + rewrite update_not_Running in He by done. injection He as <-.
      exact (conj Hx (conj Hw (conj Hh (conj Hv (conj Hband Hidle))))).
  - injection He as <-. destruct (Running_dec w) as [HR|HR].
    + rewrite jump_Running by done. unfold bird_inv. simpl.
      split; [done|]. split; [done|]. split; [done|].
      split; [apply Qle_refl|]. split; [intros _; by apply Hband|].
      intros [Hr _]. simpl in Hr. destruct HR as [Hr' _]. congruence.
    + destruct (jump_restart w HR) as (Hg & Hb & _).
      unfold bird_inv, Running, Idle. rewrite Hg, Hb. simpl. rewrite Hh.
      split; [done|]. split; [done|]. split; [done|].
      split; [done|]. split; [intros _; split; reflexivity|].
      intros [Hr' _]. discriminate Hr'.
  - injection He as <-. unfold bird_inv, Running, Idle in *.
    destruct (spawnThrone_fields rnd w) as [-> ->].
    exact (conj Hx (conj Hw (conj Hh (conj Hv (conj Hband Hidle))))).
Qed.

(** X5. Along any run from the start of the script the bird keeps its
    [x = 400] and its box of 360 by 203, its velocity is never below the
    jump impulse, it is at mid-height and at rest while the session is
    idle, and while the session is running it is strictly between the
    ceiling band and the ground band. *)
Theorem bird_stays_between_bands (es : list Event) (w : World) :
  run es initial = Some w ->
  Bird.x (bird w) = 400
  /\ Bird.width (bird w) = 360
  /\ Bird.height (bird w) = 203
  /\ JUMP_STRENGTH <= Bird.velocity (bird w)
  /\ (Running w ->
      ceilingY < Bird.y (bird w)
      /\ Bird.y (bird w) + Bird.height (bird w) < groundY)
  /\ (Idle w ->
      Bird.y (bird w) = CANVAS_HEIGHT / 2 /\ Bird.velocity (bird w) = 0).
Proof.
  intros Hrun.
  apply (run_invariant bird_inv bird_inv_step es initial w); [|done].
  unfold bird_inv; simpl.
  split; [done|]. split; [done|]. split; [done|]. split; [done|].
  split; [intros [Hr _]; discriminate Hr|done].
Qed.

Lemma bird_stays_between_bands_witness :
  exists w,
    run (flight 2) initial = Some w
    /\ Running w
    /\ ceilingY < Bird.y (bird w)
    /\ Bird.y (bird w) + Bird.height (bird w) < groundY.
Proof.
  destruct (run_total (flight 2) initial) as [w Hw].
  destruct (bird_stays_between_bands (flight 2) w Hw) as (_ & _ & _ & _ & Hband & _).
  assert (match run (flight 2) initial with
          | Some w => running (gameState w) && negb (gameOver (gameState w))
          | None => false
          end = true) as Hr by (vm_compute; reflexivity).
  rewrite Hw in Hr. apply andb_true_iff in Hr as [Hr Hg].
  apply negb_true_iff in Hg.
  exists w. split; [exact Hw|]. split; [by split|]. apply Hband. by split.
Defined.

(** ** When a frame ends the session *)

Lemma overlaps_false (b : Bird.t) (t : Throne.t) :
  overlaps b t = false
  <-> Throne.x t + Throne.width t <= Bird.x b
      \/ Bird.x b + Bird.width b <= Throne.x t
      \/ Throne.y t + Throne.height t <= Bird.y b
      \/ Bird.y b + Bird.height b <= Throne.y t.
Proof.
  unfold overlaps. rewrite !andb_false_iff, !Qltb_ge. tauto.
Qed.

(** X6. A frame of a running session ends the session exactly when, at the
    positions the frame has produced, some obstacle still in the array
    overlaps the bird or the bird touches the ground or the ceiling band;
    otherwise the session stays running and no host call is made. Boxes
    that only touch do not overlap, whereas touching a band line counts. *)
Theorem frame_ends_session_iff (w w' : World) :
  Running w ->
  update w = Some w' ->
  (GameOver w'
   <-> (exists t, In t (thrones w') /\ overlaps (bird w') t = true)
       \/ groundY <= Bird.y (bird w') + Bird.height (bird w')
       \/ Bird.y (bird w') <= ceilingY)
  /\ (Running w' \/ GameOver w')
  /\ (Running w' -> trace w' = trace w)
  /\ (forall t,
        overlaps (bird w') t = false
        <-> Throne.x t + Throne.width t <= Bird.x (bird w')
            \/ Bird.x (bird w') + Bird.width (bird w') <= Throne.x t
            \/ Throne.y t + Throne.height t <= Bird.y (bird w')
            \/ Bird.y (bird w') + Bird.height (bird w') <= Throne.y t).
Proof.
  intros HR Hu.
  destruct (gameState_update w w' HR Hu) as [Hl _].
  split; [|split; [exact Hl|split]].
  - assert (GameOver w'
            <-> hits_throne w' = true \/ hits_band (bird w') = true) as ->.
    { split.
      - intros [Hr _]. destruct (hits_throne w') eqn:Ht; [by left|right].
        destruct (hits_band (bird w')) eqn:Hb; [done|].
        exfalso. revert Hr Ht Hb. rewrite update_Running in Hu by done.
        injection Hu as <-. rewrite terminal_checks_spec.
        unfold hits_throne.
        destruct (existsb _ (thrones (advanced w))) eqn:Ht,
                 (hits_band (bird (advanced w))) eqn:Hb; simpl;
          rewrite ?thrones_endGame, ?bird_endGame, ?Ht, ?Hb; try done.
        destruct HR as [Hr' _]. simpl. congruence.
      - intros Hhit. destruct Hl as [HR'|HG]; [|exact HG].
        destruct (Running_after_update w w' HR Hu HR') as (Ht & Hb & _).
        destruct Hhit; congruence. }
    unfold hits_throne, hits_band.
    rewrite existsb_exists, orb_true_iff, !Qleb_le. tauto.
  - intros HR'. by destruct (Running_after_update w w' HR Hu HR') as (_ & _ & ->).
  - intros t. apply overlaps_false.
Qed.

Lemma frame_ends_session_iff_witness :
  Running doomed_session
  /\ exists w',
       update doomed_session = Some w'
       /\ GameOver w'
       /\ groundY <= Bird.y (bird w') + Bird.height (bird w').
Proof.
  assert (HR : Running doomed_session) by (split; reflexivity).
  destruct (update_total doomed_session) as [w' Hu].
  destruct (frame_ends_session_iff doomed_session w' HR Hu) as (Hiff & _).
  assert (groundY <= Bird.y (bird w') + Bird.height (bird w')) as Hg.
  { assert (update doomed_session = Some w') as Hu' by exact Hu.
    vm_compute in Hu'. injection Hu' as <-. vm_compute. discriminate. }
  split; [exact HR|]. exists w'. split; [exact Hu|]. split; [|exact Hg].
  apply Hiff. right. left. exact Hg.
Defined.

(** ** The band that every pair leaves free *)

Lemma spawned_shape_advance v bx t :
  spawned_shape t -> spawned_shape (advance v bx t).
Proof.
  unfold spawned_shape. by rewrite y_advance, height_advance.
Qed.

Lemma spawned_shape_spawn (rnd : Q) :
  is_draw rnd ->
  spawned_shape (top_throne rnd) /\ spawned_shape (bottom_throne rnd).
Proof.
  intros [H0 H1]. unfold spawned_shape; simpl.
  unfold gapY, maxGapY, minGapY, CANVAS_HEIGHT, THRONE_GAP.
  split; [left|right]; repeat split; lra.
Qed.

Lemma spawned_shape_step (e : Event) (w w' : World) :
  match e with TimerFires rnd => is_draw rnd | _ => True end ->
  Forall spawned_shape (thrones w) ->
  step e w = Some w' ->
  Forall spawned_shape (thrones w').
Proof.
  intros Hd Hs He. destruct e; simpl in He.
  - destruct (Running_dec w) as [HR|HR].
    + rewrite (thrones_update w w' HR He).
      apply Forall_sweep; [|done]. intros t. apply spawned_shape_advance.
    + rewrite update_not_Running in He by done. by injection He as <-.
  - injection He as <-. destruct (jump_cases w) as [_ Hc].
    destruct (negb _ || _); destruct Hc as [-> _]; [constructor|done].
  - injection He as <-. destruct (Running_dec w) as [HR|HR].
    + rewrite spawnThrone_Running by done. simpl.
      destruct (spawned_shape_spawn rnd Hd) as [Htop Hbot].
      apply Forall_app. split; [done|].
      constructor; [exact Htop|]. constructor; [exact Hbot|]. constructor.
    + unfold spawnThrone. by rewrite (proj2 (guard_not_Running w) HR).
Qed.

Lemma spawned_shape_run (es : list Event) : forall w w',
  legit es ->
  Forall spawned_shape (thrones w) ->
  run es w = Some w' ->
  Forall spawned_shape (thrones w').
Proof.
  induction es as [|e es IH]; intros w w' Hl Hs Hrun; simpl in Hrun.
  - by injection Hrun as <-.
  - destruct (step e w) as [w1|] eqn:He; [|done].
    apply Forall_cons in Hl as [Hd Hl].
    apply (IH w1); [done| |done]. by apply (spawned_shape_step e w).
Qed.

Lemma spawned_shape_clear (b : Bird.t) (t : Throne.t) :
  spawned_shape t ->
  400 <= Bird.y b ->
  Bird.y b + Bird.height b <= 680 ->
  overlaps b t = false.
Proof.
  intros Hs Hy Hh. apply overlaps_false.
  destruct Hs as [(Hy0 & _ & Hht)|(Hyt & _)].
  - right. right. left. rewrite Hy0. lra.
  - right. right. right. lra.
Qed.

(** X7. With the constants of the code every pair made from a draw leaves
    the band of heights from 400 to 680 free: along any run from the start
    of the script whose draws lie in [0, 1), every obstacle is either a top
    member ending at 400 or higher up, or a bottom member starting below
    680 and reaching exactly to the bottom of the field, so no obstacle
    overlaps a box that lies within that band, wherever the obstacle is
    horizontally. *)
Theorem band_400_680_stays_free (es : list Event) (w : World) :
  legit es ->
  run es initial = Some w ->
  Forall (fun t =>
            (Throne.y t = 0 /\ -120 < Throne.height t /\ Throne.height t <= 400)
            \/ (680 < Throne.y t /\ Throne.y t <= 1200
                /\ Throne.y t + Throne.height t == CANVAS_HEIGHT))
         (thrones w)
  /\ (forall b : Bird.t,
        400 <= Bird.y b ->
        Bird.y b + Bird.height b <= 680 ->
        existsb (overlaps b) (thrones w) = false).
Proof.
  intros Hl Hrun.
  assert (Forall spawned_shape (thrones w)) as Hs
    by (apply (spawned_shape_run es initial w Hl); [constructor|done]).
  split; [exact Hs|].
  intros b Hy Hh. apply not_true_iff_false. intros Hex.
  apply existsb_exists in Hex as (t & Hin & Ht).
  rewrite (spawned_shape_clear b t) in Ht; [discriminate Ht| |done|done].
  by apply (proj1 (List.Forall_forall _ _) Hs).
Qed.

Lemma band_400_680_stays_free_witness :
  exists w,
    legit lane_run
    /\ run lane_run initial = Some w
    /\ length (thrones w) = 4%nat
    /\ existsb (overlaps (Bird.mk 400 450 360 203 0)) (thrones w) = false.
Proof.
  assert (Hl : legit lane_run).
  { unfold legit, lane_run, is_draw.
    repeat constructor; vm_compute; congruence. }
  destruct (run_total lane_run initial) as [w Hw].
  destruct (band_400_680_stays_free lane_run w Hl Hw) as (_ & Hfree).
  exists w. split; [exact Hl|]. split; [exact Hw|]. split.
  - assert (match run lane_run initial with
            | Some w => length (thrones w)
            | None => 0%nat
            end = 4%nat) as H4 by (vm_compute; reflexivity).
    by rewrite Hw in H4.
  - apply Hfree; vm_compute; congruence.
Defined.

(** ** The page along a run *)







(** ** The frame loop is started once *)



(** ** Inputs woven with spawn timers *)

Lemma weave_peel (e : Event) (inputs es : list Event) :
  weave (e :: inputs) es ->
  exists es0 es', es = es0 ++ e :: es' /\ weave [] es0 /\ weave inputs es'.
Proof.
  intros H. remember (e :: inputs) as i eqn:Hi. revert e inputs Hi.
  induction H as [|rnd i es Hd H IH|i es H IH|i es H IH]; intros e inputs Hi.
  - discriminate Hi.
  - destruct (IH e inputs Hi) as (es0 & es' & -> & H0 & H').
    exists (TimerFires rnd :: es0), es'. split; [done|]. split; [|done].
    by constructor.
  - injection Hi as <- <-. exists [], es. split; [done|]. split; [constructor|done].
  - injection Hi as <- <-. exists [], es. split; [done|]. split; [constructor|done].
Qed.

Lemma timers_run (P : World -> Prop) (es : list Event) :
  weave [] es -> spawn_stable P ->
  forall w, P w -> exists w', run es w = Some w' /\ P w'.
Proof.
  intros H HP. remember [] as i eqn:Hi.
  induction H as [|rnd i es Hd H IH|i es H IH|i es H IH]; intros w Hw;
    try discriminate Hi.
  - exists w. by split.
  - simpl. apply (IH Hi). by apply HP.
Qed.

Lemma consumes_input (e : Event) (P Q : World -> Prop) :
  spawn_stable P ->
  (forall w w', P w -> step e w = Some w' -> Q w') ->
  consumes [e] P Q.
Proof.
  intros HP Hstep rest es w Hw Hw0. simpl in Hw.
  destruct (weave_peel e rest es Hw) as (es0 & es' & -> & H0 & H').
  destruct (timers_run P es0 H0 HP w Hw0) as (w0 & Hrun0 & HP0).
  destruct (step_total e w0) as [w1 He].
  exists es', w1. split; [done|]. split; [|by apply (Hstep w0)].
  rewrite run_app, Hrun0. simpl. by rewrite He.
Qed.

Lemma consumes_app (a b : list Event) (P Q R : World -> Prop) :
  consumes a P Q -> consumes b Q R -> consumes (a ++ b) P R.
Proof.
  intros Ha Hb rest es w Hw HP. rewrite <- app_assoc in Hw.
  destruct (Ha _ _ _ Hw HP) as (es1 & w1 & Hw1 & Hr1 & HQ).
  destruct (Hb _ _ _ Hw1 HQ) as (es2 & w2 & Hw2 & Hr2 & HR).
  exists es2, w2. split; [done|]. split; [congruence|done].
Qed.

Lemma consumes_weaken (pre : list Event) (P P' Q Q' : World -> Prop) :
  (forall w, P' w -> P w) -> (forall w, Q w -> Q' w) ->
  consumes pre P Q -> consumes pre P' Q'.
Proof.
  intros HP HQ H rest es w Hw Hw0.
  destruct (H _ _ _ Hw (HP _ Hw0)) as (es' & w' & ? & ? & ?). eauto 6.
Qed.

Lemma consumes_run (pre : list Event) (P Q : World -> Prop) :
  consumes pre P Q -> spawn_stable Q ->
  forall es w, weave pre es -> P w -> exists w', run es w = Some w' /\ Q w'.
Proof.
  intros H HQ es w Hw HP. rewrite <- (app_nil_r pre) in Hw.
  destruct (H _ _ _ Hw HP) as (es' & w' & Hw' & -> & HQ').
  by apply (timers_run Q es' Hw' HQ).
Qed.

(** ** The bird in flight *)

Lemma inject_S (k : nat) :
  inject_Z (Z.of_nat (S k)) == inject_Z (Z.of_nat k) + 1.
Proof. by rewrite Nat2Z.inj_succ, <- Z.add_1_r, inject_Z_plus. Qed.

Lemma inject_nat_bounds (k n : nat) :
  (k <= n)%nat ->
  0 <= inject_Z (Z.of_nat k) /\ inject_Z (Z.of_nat k) <= inject_Z (Z.of_nat n).
Proof.
  intros H. split.
  - change 0 with (inject_Z 0). rewrite <- Zle_Qle. lia.
  - rewrite <- Zle_Qle. lia.
Qed.

Lemma flight_height_S (y0 : Q) (k : nat) :
  flight_height y0 (S k)
  == flight_height y0 k + (JUMP_STRENGTH + inject_Z (Z.of_nat (S k)) * GRAVITY).
Proof.
  unfold flight_height, JUMP_STRENGTH, GRAVITY. rewrite !inject_S. field.
Qed.

(** Within 31 frames of a key press the bird is at most 60 above the
    height of the key press and never below it. *)
Lemma flight_height_bounds (y0 : Q) (k : nat) :
  (k <= 31)%nat ->
  y0 - 60 <= flight_height y0 k /\ flight_height y0 k <= y0.
Proof.
  intros Hk. unfold flight_height.
  destruct (inject_nat_bounds k 31 Hk) as [H0 H31].
  change (inject_Z (Z.of_nat 31)) with 31 in H31.
  assert (0 <= (inject_Z (Z.of_nat k) - 15) * (inject_Z (Z.of_nat k) - 16)) as Hint.
  { change 15 with (inject_Z 15). change 16 with (inject_Z 16).
    unfold Qminus. rewrite <- !inject_Z_opp, <- !inject_Z_plus, <- inject_Z_mult.
    change 0 with (inject_Z 0). rewrite <- Zle_Qle.
    destruct (Z_le_gt_dec (Z.of_nat k) 15); nia. }
  set (q := inject_Z (Z.of_nat k)) in *.
  assert (0 <= q * (31 - q)) as Hp by (apply Qmult_le_0_compat; lra).
  assert (q * (q + 1) / 4 == (q * q + q) * (1 # 4)) as -> by field.
  split; lra.
Qed.

Lemma flying_jump (y0 : Q) (w : World) :
  ready y0 w ->
  airborne y0 0 (jump w)
  /\ thrones (jump w) = thrones w
  /\ score (gameState (jump w)) = score (gameState w).
Proof.
  intros [(HR & Hx & Hw & Hh) Hy]. rewrite (jump_Running w HR).
  destruct w as [[r o s v m] [bx by_ bw bh bv] l tr]; simpl in *.
  split; [|done]. split; [done|]. split.
  - simpl. change (inject_Z (Z.of_nat 0)) with 0. lra.
  - simpl. unfold flight_height. change (inject_Z (Z.of_nat 0)) with 0.
    rewrite Hy. field.
Qed.

Lemma flying_tick (y0 : Q) (k : nat) (w : World) :
  airborne y0 k w ->
  hits_throne (advanced w) = false ->
  ceilingY < flight_height y0 (S k) ->
  flight_height y0 (S k) + 203 < groundY ->
  update w = Some (advanced w) /\ airborne y0 (S k) (advanced w).
Proof.
  intros ((HR & Hx & Hw & Hh) & Hv & Hy) Hhit Hc Hg.
  pose proof (flight_height_S y0 k) as HS.
  assert (Bird.y (bird (advanced w)) == flight_height y0 (S k)) as Hy'.
  { destruct w as [g [bx by_ bw bh bv] l tr]; simpl in *.
    rewrite HS, Hy, Hv, inject_S. unfold GRAVITY. ring. }
  assert (Bird.velocity (bird (advanced w))
          == JUMP_STRENGTH + inject_Z (Z.of_nat (S k)) * GRAVITY) as Hv'.
  { destruct w as [g [bx by_ bw bh bv] l tr]; simpl in *.
    rewrite Hv, inject_S. unfold GRAVITY. ring. }
  assert (Bird.height (bird (advanced w)) = 203) as Hh' by exact Hh.
  split.
  - rewrite (update_Running w HR), terminal_checks_spec, Hhit. cbn [orb].
    replace (hits_band (bird (advanced w))) with false; [done|].
    symmetry. unfold hits_band. apply orb_false_iff.
    rewrite !Qleb_gt, Hh', Hy'. by split.
  - split; [|by split]. split; [exact HR|]. by split.
Qed.

Lemma spawn_stable_and (P Q : World -> Prop) :
  spawn_stable P -> spawn_stable Q -> spawn_stable (fun w => P w /\ Q w).
Proof. intros HP HQ rnd w Hd [H1 H2]. split; [by apply HP|by apply HQ]. Qed.

Lemma spawn_stable_flying : spawn_stable flying.
Proof.
  intros rnd w _ H. unfold flying, Running in *.
  by destruct (spawnThrone_fields rnd w) as [-> ->].
Qed.

Lemma spawn_stable_ready (y0 : Q) : spawn_stable (ready y0).
Proof.
  intros rnd w Hd [H1 H2]. split; [by apply spawn_stable_flying|].
  by destruct (spawnThrone_fields rnd w) as [_ ->].
Qed.

Lemma spawn_stable_airborne (y0 : Q) (k : nat) : spawn_stable (airborne y0 k).
Proof.
  intros rnd w Hd (H1 & H2 & H3). split; [by apply spawn_stable_flying|].
  by destruct (spawnThrone_fields rnd w) as [_ ->].
Qed.

Lemma thrones_spawnThrone (rnd : Q) (w : World) :
  thrones (spawnThrone rnd w) = thrones w
  \/ thrones (spawnThrone rnd w)
     = thrones w ++ [top_throne rnd; bottom_throne rnd].
Proof.
  destruct (negb (running (gameState w)) || gameOver (gameState w)) eqn:Hg.
  - left. unfold spawnThrone. by rewrite Hg.
  - right. apply guard_Running in Hg. by rewrite (spawnThrone_Running rnd w Hg).
Qed.

Lemma spawn_stable_lane : spawn_stable lane.
Proof.
  intros rnd w Hd H. unfold lane in *.
  destruct (thrones_spawnThrone rnd w) as [-> | ->]; [done|].
  destruct (spawned_shape_spawn rnd Hd) as [Htop Hbot].
  apply Forall_app. split; [done|].
  constructor; [exact Htop|]. constructor; [exact Hbot|]. constructor.
Qed.

Lemma spawn_stable_far (t : nat) : spawn_stable (far t).
Proof.
  intros rnd w Hd [Hs H]. unfold far in *.
  destruct (spawnThrone_fields rnd w) as [-> _]. split; [done|].
  destruct (thrones_spawnThrone rnd w) as [-> | ->]; [done|].
  destruct (spawned_shape_spawn rnd Hd) as [Htop Hbot].
  destruct (inject_nat_bounds t t (le_n t)) as [H0 _].
  apply Forall_app. split; [done|].
  constructor; [|constructor; [|constructor]].
  - split; [exact Htop|]. split; [|done]. simpl. unfold CANVAS_WIDTH. lra.
  - split; [exact Hbot|]. split; [|done]. simpl. unfold CANVAS_WIDTH. lra.
Qed.

Lemma credits_from_none (v bx : Q) (l : list Throne.t) :
  Forall (fun t => crossing v bx t = false) l ->
  forall i, credits_from i v bx l = 0%Z.
Proof.
  induction 1 as [|t l Ht _ IH]; intros i; simpl; [done|].
  by rewrite Ht, IH.
Qed.

Lemma Forall_sweep_impl (P R : Throne.t -> Prop) v bx l :
  (forall t, P t -> R (advance v bx t)) ->
  Forall P l -> Forall R (sweep v bx l).
Proof.
  intros HP Hl. apply List.Forall_forall. intros t'.
  rewrite In_sweep. intros (t & Hin & -> & _).
  apply HP. by apply (proj1 (List.Forall_forall _ _) Hl).
Qed.

(** While every obstacle is still far to the right of the bird, a frame
    scores nothing, touches nothing and moves them by 12. *)
Lemma far_tick (t : nat) (w : World) :
  (S t <= 10)%nat -> flying w -> far t w ->
  hits_throne (advanced w) = false /\ far (S t) (advanced w).
Proof.
  intros Ht (HR & Hx & Hw & Hh) [Hs Hl].
  destruct (inject_nat_bounds t 9 ltac:(lia)) as [H0 H9].
  change (inject_Z (Z.of_nat 9)) with 9 in H9.
  pose proof (inject_S t) as HS.
  destruct w as [[r o s v m] [bx by_ bw bh bv] l tr]; simpl in *. subst s bx bw.
  unfold hits_throne, far; simpl.
  assert (speed_of_score 0 == 12) as Hv by reflexivity.
  set (sp := speed_of_score 0) in *.
  split; [|split].
  - apply not_true_iff_false. intros Hex.
    apply existsb_exists in Hex. destruct Hex as (t' & Hin & Hov).
    apply In_sweep in Hin. destruct Hin as (t0 & Hin & -> & _).
    apply (proj1 (List.Forall_forall _ _) Hl) in Hin.
    destruct Hin as (_ & Hx0 & Hw0).
    assert (overlaps (moved_bird (Bird.mk 400 by_ 360 bh bv)) (advance sp 400 t0)
            = false) as Hno; [|congruence].
    apply overlaps_false. right. left. rewrite x_advance. simpl.
    unfold CANVAS_WIDTH in Hx0. lra.
  - rewrite credits_from_none; [done|].
    eapply Forall_impl; [exact Hl|]. simpl. intros t0 (_ & Hx0 & Hw0).
    unfold crossing. apply andb_false_iff. right. apply Qltb_ge.
    rewrite Hw0. unfold THRONE_WIDTH, CANVAS_WIDTH in *. lra.
  - eapply Forall_sweep_impl; [|exact Hl]. intros t0 (Hsh & Hx0 & Hw0).
    split; [by apply spawned_shape_advance|].
    rewrite x_advance, width_advance. split; [|done].
    unfold CANVAS_WIDTH in *. lra.
Qed.

(** Once the bird flies inside the band from 400 to 680, a frame touches
    no obstacle, whatever the obstacles' positions and speed. *)
Lemma lane_tick (w : World) :
  flying w -> lane w ->
  400 <= Bird.y (bird (advanced w)) ->
  Bird.y (bird (advanced w)) + 203 <= 680 ->
  hits_throne (advanced w) = false /\ lane (advanced w).
Proof.
  intros (HR & Hx & Hw & Hh) Hl Hlo Hhi.
  assert (lane (advanced w)) as Hl'.
  { unfold lane. simpl. apply Forall_sweep; [|exact Hl].
    intros t0. apply spawned_shape_advance. }
  split; [|exact Hl'].
  apply not_true_iff_false. intros Hex. unfold hits_throne in Hex.
  apply existsb_exists in Hex. destruct Hex as (t' & Hin & Hov).
  apply (proj1 (List.Forall_forall _ _) Hl') in Hin.
  rewrite (spawned_shape_clear (bird (advanced w)) t' Hin) in Hov;
    [discriminate Hov|done|].
  replace (Bird.height (bird (advanced w))) with 203
    by (symmetry; exact Hh).
  done.
Qed.

Lemma flying_tick_height (y0 : Q) (k : nat) (w : World) :
  airborne y0 k w -> Bird.y (bird (advanced w)) == flight_height y0 (S k).
Proof.
  intros (_ & Hv & Hy). pose proof (flight_height_S y0 k) as HS.
  destruct w as [g [bx by_ bw bh bv] l tr]; simpl in *.
  rewrite HS, Hy, Hv, inject_S. unfold GRAVITY. ring.
Qed.

Lemma airborne_ready (y0 y1 : Q) (k : nat) (w : World) :
  airborne y0 k w -> flight_height y0 k == y1 -> ready y1 w.
Proof. intros (Hf & _ & Hy) H. split; [done|]. by rewrite Hy. Qed.

Lemma ready_proper (y0 y1 : Q) (w : World) :
  ready y0 w -> y0 == y1 -> ready y1 w.
Proof. intros [Hf Hy] H. split; [done|]. by rewrite Hy. Qed.

Lemma spawn_stable_quiet : spawn_stable quiet.
Proof.
  intros rnd w _ H. unfold quiet, spawnThrone in *.
  destruct (negb _ || _); [done|].
  destruct w as [g b l tr]; unfold set_thrones, emit; simpl in *.
  rewrite in_app_iff. simpl. intuition discriminate.
Qed.

Lemma quiet_jump (w : World) : Running w -> quiet w -> quiet (jump w).
Proof.
  intros HR H. unfold quiet in *. rewrite (jump_Running w HR). simpl.
  rewrite !in_app_iff. unfold music_prelude.
  destruct (musicStarted _); simpl; intuition discriminate.
Qed.

Lemma spawn_stable_and3 (P Q R : World -> Prop) :
  spawn_stable P -> spawn_stable Q -> spawn_stable R ->
  spawn_stable (fun w => P w /\ Q w /\ R w).
Proof.
  intros HP HQ HR rnd w Hd (H1 & H2 & H3).
  split; [by apply HP|]. split; [by apply HQ|by apply HR].
Qed.

Lemma consumes_nil (P Q : World -> Prop) :
  (forall w, P w -> Q w) -> consumes [] P Q.
Proof. intros H rest es w Hw HP. exists es, w. auto. Qed.

(** ** The phases of the pilot's flight *)

Section Zone.

(** [zone] says where the obstacles are; a key press does not move them. *)
Variable zone : World -> Prop.
Hypothesis zone_spawn : spawn_stable zone.
Hypothesis zone_jump : forall w, Running w -> zone w -> zone (jump w).

Lemma consumes_jump (y0 : Q) :
  consumes [Jump]
    (fun w => ready y0 w /\ zone w /\ quiet w)
    (fun w => airborne y0 0 w /\ zone w /\ quiet w).
Proof.
  apply consumes_input.
  - apply spawn_stable_and3;
      [apply spawn_stable_ready|exact zone_spawn|apply spawn_stable_quiet].
  - intros w w' (Hr & Hz & Hq) [= <-].
    pose proof (proj1 (proj1 Hr)) as HR.
    destruct (flying_jump y0 w Hr) as (Ha & _).
    split; [done|]. split; [by apply zone_jump|by apply quiet_jump].
Qed.

End Zone.

Lemma far_jump (t : nat) (w : World) : Running w -> far t w -> far t (jump w).
Proof. intros HR H. by rewrite (jump_Running w HR). Qed.

Lemma lane_jump (w : World) : Running w -> lane w -> lane (jump w).
Proof. intros HR H. by rewrite (jump_Running w HR). Qed.

Lemma consumes_tick_far (y0 : Q) (k t : nat) :
  (S t <= 10)%nat -> (S k <= 31)%nat -> 180 < y0 -> y0 < 757 ->
  consumes [Tick]
    (fun w => airborne y0 k w /\ far t w /\ quiet w)
    (fun w => airborne y0 (S k) w /\ far (S t) w /\ quiet w).
Proof.
  intros Ht Hk Hlo Hhi. apply consumes_input.
  - apply spawn_stable_and3;
      [apply spawn_stable_airborne|apply spawn_stable_far|apply spawn_stable_quiet].
  - intros w w' (Ha & Hf & Hq) Hstep. simpl in Hstep.
    destruct (far_tick t w Ht (proj1 Ha) Hf) as [Hhit Hf'].
    destruct (flight_height_bounds y0 (S k) Hk) as [Hb1 Hb2].
    destruct (flying_tick y0 k w Ha Hhit) as [Hu Ha'].
    { unfold ceilingY. lra. }
    { unfold groundY, CANVAS_HEIGHT. lra. }
    rewrite Hu in Hstep. injection Hstep as <-. exact (conj Ha' (conj Hf' Hq)).
Qed.

Lemma consumes_tick_lane (y0 : Q) (k : nat) :
  (S k <= 31)%nat -> 460 <= y0 -> y0 <= 477 ->
  consumes [Tick]
    (fun w => airborne y0 k w /\ lane w /\ quiet w)
    (fun w => airborne y0 (S k) w /\ lane w /\ quiet w).
Proof.
  intros Hk Hlo Hhi. apply consumes_input.
  - apply spawn_stable_and3;
      [apply spawn_stable_airborne|apply spawn_stable_lane|apply spawn_stable_quiet].
  - intros w w' (Ha & Hl & Hq) Hstep. simpl in Hstep.
    destruct (flight_height_bounds y0 (S k) Hk) as [Hb1 Hb2].
    pose proof (flying_tick_height y0 k w Ha) as Hy.
    destruct (lane_tick w (proj1 Ha) Hl) as [Hhit Hl'].
    { rewrite Hy. lra. }
    { rewrite Hy. lra. }
    destruct (flying_tick y0 k w Ha Hhit) as [Hu Ha'].
    { unfold ceilingY. lra. }
    { unfold groundY, CANVAS_HEIGHT. lra. }
    rewrite Hu in Hstep. injection Hstep as <-. exact (conj Ha' (conj Hl' Hq)).
Qed.

Lemma consumes_ticks_far (y0 : Q) (m : nat) : forall k t,
  (t + m <= 10)%nat -> (k + m <= 31)%nat -> 180 < y0 -> y0 < 757 ->
  consumes (repeat Tick m)
    (fun w => airborne y0 k w /\ far t w /\ quiet w)
    (fun w => airborne y0 (k + m) w /\ far (t + m) w /\ quiet w).
Proof.
  induction m as [|m IH]; intros k t Ht Hk Hlo Hhi.
  - rewrite !Nat.add_0_r. by apply consumes_nil.
  - rewrite !Nat.add_succ_r.
    change (repeat Tick (S m)) with ([Tick] ++ repeat Tick m).
    eapply consumes_app.
    + apply (consumes_tick_far y0 k t); [lia|lia|done|done].
    + apply (IH (S k) (S t)); [lia|lia|done|done].
Qed.

Lemma consumes_ticks_lane (y0 : Q) (m : nat) : forall k,
  (k + m <= 31)%nat -> 460 <= y0 -> y0 <= 477 ->
  consumes (repeat Tick m)
    (fun w => airborne y0 k w /\ lane w /\ quiet w)
    (fun w => airborne y0 (k + m) w /\ lane w /\ quiet w).
Proof.
  induction m as [|m IH]; intros k Hk Hlo Hhi.
  - rewrite !Nat.add_0_r. by apply consumes_nil.
  - rewrite !Nat.add_succ_r.
    change (repeat Tick (S m)) with ([Tick] ++ repeat Tick m).
    eapply consumes_app.
    + apply (consumes_tick_lane y0 k); [lia|done|done].
    + apply (IH (S k)); [lia|done|done].
Qed.

(** A short hop in the first ten frames of the session. *)
Lemma consumes_hop5 (y0 : Q) (t : nat) :
  (t + 5 <= 10)%nat -> 180 < y0 -> y0 < 757 ->
  consumes hop5
    (fun w => ready y0 w /\ far t w /\ quiet w)
    (fun w => ready (flight_height y0 5) w /\ far (t + 5) w /\ quiet w).
Proof.
  intros Ht Hlo Hhi. change hop5 with ([Jump] ++ repeat Tick 5).
  eapply consumes_app.
  - apply (consumes_jump (far t)); [apply spawn_stable_far|apply far_jump].
  - eapply consumes_weaken; [| |apply (consumes_ticks_far y0 5 0 t); [lia|lia|done|done]].
    + done.
    + intros w (Ha & Hf & Hq). split; [|done].
      by apply (airborne_ready y0 _ 5).
Qed.

(** A hop of 31 frames inside the free band brings the bird back to the
    height it started from. *)
Lemma consumes_hop (y0 : Q) :
  460 <= y0 -> y0 <= 477 ->
  consumes hop
    (fun w => ready y0 w /\ lane w /\ quiet w)
    (fun w => ready y0 w /\ lane w /\ quiet w).
Proof.
  intros Hlo Hhi. change hop with ([Jump] ++ repeat Tick 31).
  eapply consumes_app.
  - apply (consumes_jump lane); [apply spawn_stable_lane|apply lane_jump].
  - eapply consumes_weaken; [| |apply (consumes_ticks_lane y0 31 0); [lia|done|done]].
    + done.
    + intros w (Ha & Hf & Hq). split; [|done].
      apply (airborne_ready y0 _ 31); [done|].
      unfold flight_height. change (inject_Z (Z.of_nat 31)) with 31. field.
Qed.

Lemma consumes_hops (y0 : Q) (n : nat) :
  460 <= y0 -> y0 <= 477 ->
  consumes (concat (repeat hop n))
    (fun w => ready y0 w /\ lane w /\ quiet w)
    (fun w => ready y0 w /\ lane w /\ quiet w).
Proof.
  intros Hlo Hhi. induction n as [|n IH].
  - by apply consumes_nil.
  - change (concat (repeat hop (S n))) with (hop ++ concat (repeat hop n)).
    eapply consumes_app; [by apply consumes_hop|exact IH].
Qed.

Lemma far_lane (t : nat) (w : World) : far t w -> lane w.
Proof.
  intros [_ H]. unfold lane. eapply Forall_impl; [exact H|].
  by intros th (Hs & _).
Qed.

(** The key press that starts the session from the initial state. *)
Lemma consumes_start :
  consumes [Jump]
    (fun w => w = initial)
    (fun w => ready 540 w /\ far 0 w /\ quiet w).
Proof.
  assert (forall rnd, spawnThrone rnd initial = initial) as Hsp by done.
  apply consumes_input.
  - intros rnd w _ ->. apply Hsp.
  - intros w w' -> [= <-].
    rewrite (jump_not_running initial eq_refl).
    split; [|split].
    + split; [by repeat split|]. simpl. by vm_compute.
    + split; [done|]. simpl. constructor.
    + unfold quiet. simpl. intuition discriminate.
Qed.

Lemma consumes_pilot (n : nat) :
  consumes (pilot n)
    (fun w => w = initial)
    (fun w => ready 475 w /\ lane w /\ quiet w).
Proof.
  unfold pilot. change (Jump :: hop5 ++ hop5) with ([Jump] ++ hop5 ++ hop5).
  eapply consumes_app; [|apply consumes_hops; lra].
  eapply consumes_app; [apply consumes_start|].
  eapply consumes_app; [apply (consumes_hop5 540 0); [lia|lra|lra]|].
  eapply consumes_weaken; [| |apply (consumes_hop5 (flight_height 540 5) 5)].
  - done.
  - intros w (Hr & Hf & Hq). split; [|split; [by apply (far_lane _ _ Hf)|done]].
    apply (ready_proper _ _ _ Hr). by vm_compute.
  - lia.
  - by vm_compute.
  - by vm_compute.
Qed.

(** X10. A player can keep a session alive for ever, whatever the draws and
    whenever the spawn timers fire.  The player presses the key to start,
    presses it again at once and after 5 frames, then after 5 more frames
    presses it every 31 frames ([pilot n] is these inputs up to the end of
    the [n]-th hop of 31 frames).  For every way of firing spawn timers with
    draws in [0, 1) between these inputs, the run from the initial state
    does not throw, the session is still running at the end with the bird
    back at height 475, and the game-over screen has never been shown. *)
Theorem pilot_never_loses (n : nat) (es : list Event) :
  weave (pilot n) es ->
  exists w, run es initial = Some w
            /\ Running w
            /\ Bird.y (bird w) == 475
            /\ ~ In OverlayShow (trace w).
Proof.
  intros Hw.
  destruct (consumes_run (pilot n) _ _ (consumes_pilot n)
              (spawn_stable_and3 _ _ _ (spawn_stable_ready 475)
                                 spawn_stable_lane spawn_stable_quiet)
              es initial Hw eq_refl)
    as (w & Hrun & ((HR & _) & Hy) & _ & Hq).
  exists w. exact (conj Hrun (conj HR (conj Hy Hq))).
Qed.

Lemma pilot_never_loses_witness :
  weave (pilot 1) pilot_run
  /\ exists w, run pilot_run initial = Some w
               /\ Running w
               /\ Bird.y (bird w) == 475
               /\ ~ In OverlayShow (trace w).
Proof.
  assert (weave (pilot 1) pilot_run) as Hw.
  { repeat first [ apply weave_nil | apply weave_tick | apply weave_jump
                 | apply weave_timer; [split; by vm_compute|] ]. }
  split; [exact Hw|]. exact (pilot_never_loses 1 pilot_run Hw).
Defined.

(** ** Timer delays *)

Lemma getSpawnInterval_range (w : World) :
  (1000 <= getSpawnInterval w <= 3000)%Z.
Proof.
  unfold getSpawnInterval, INITIAL_SPAWN_INTERVAL.
  repeat destruct (_ <? _)%Z; lia.
Qed.

(** X11. The delay of the next spawn never grows with the score, and it is
    always between 1000 ms and 3000 ms: of two states, the one with the
    higher score re-arms the spawn timer at least as soon. *)
Theorem getSpawnInterval_antitone (w1 w2 : World) :
  (score (gameState w1) <= score (gameState w2))%Z ->
  (1000 <= getSpawnInterval w2)%Z
  /\ (getSpawnInterval w2 <= getSpawnInterval w1)%Z
  /\ (getSpawnInterval w1 <= 3000)%Z.
Proof.
  intros H. split; [apply getSpawnInterval_range|].
  split; [|apply getSpawnInterval_range].
  unfold getSpawnInterval, INITIAL_SPAWN_INTERVAL.
  repeat match goal with
         | |- context [(?a <? ?b)%Z] => destruct (Z.ltb_spec a b)
         end; lia.
Qed.

Lemma getSpawnInterval_antitone_witness :
  (score (gameState (session_with_score 9))
   <= score (gameState (session_with_score 10)))%Z
  /\ (1000 <= getSpawnInterval (session_with_score 10))%Z
  /\ (getSpawnInterval (session_with_score 10)
      <= getSpawnInterval (session_with_score 9))%Z
  /\ (getSpawnInterval (session_with_score 9) <= 3000)%Z.
Proof.
  assert (score (gameState (session_with_score 9))
          <= score (gameState (session_with_score 10)))%Z as H
    by (simpl; lia).
  split; [exact H|].
  exact (getSpawnInterval_antitone (session_with_score 9) (session_with_score 10) H).
Defined.

Lemma trace_jump_delays (w : World) :
  exists tr, trace (jump w) = trace w ++ tr /\ Forall delay_ok tr.
Proof.
  destruct w as [[r o s v m] b l tr].
  destruct r, o, m;
    cbv [jump music_prelude setup emit with_gameState with_bird set_thrones negb
         gameState running gameOver score currentThroneSpeed musicStarted
         bird thrones trace set_running set_gameOver set_score
         set_currentThroneSpeed set_musicStarted set_bird_y set_bird_velocity
         Bird.x Bird.y Bird.width Bird.height Bird.velocity];
    rewrite <- ?app_assoc;
    (eexists; split; [reflexivity|]);
    repeat (first [apply List.Forall_nil | apply List.Forall_cons]);
    simpl; try exact I; lia.
Qed.

Lemma delays_step (e : Event) (w w' : World) :
  Forall delay_ok (trace w) -> step e w = Some w' -> Forall delay_ok (trace w').
Proof.
  intros H He. destruct e; simpl in He.
  - destruct (Running_dec w) as [HR|HR].
    + destruct (trace_update w w' HR He) as [[_ ->]|[_ ->]]; [done|].
      apply Forall_app. split; [done|].
      constructor; [exact I|]. constructor; [exact I|]. constructor.
    + rewrite update_not_Running in He by done. by injection He as <-.
  - injection He as <-. destruct (trace_jump_delays w) as (tr & -> & Htr).
    apply Forall_app. by split.
  - injection He as <-. destruct (Running_dec w) as [HR|HR].
    + rewrite (spawnThrone_Running rnd w HR). simpl.
      apply Forall_app. split; [done|].
      constructor; [apply getSpawnInterval_range|constructor].
    + unfold spawnThrone. by rewrite (proj2 (guard_not_Running w) HR).
Qed.

(** X12. Every timer the engine ever arms has a delay between 1000 ms and
    3000 ms: after any sequence of frames, key presses and timer firings
    from the start of the script, each [setTimeout] call made so far, by a
    start or restart of the session or by a spawn, has a delay in that
    range. *)
Theorem timers_between_1s_and_3s (es : list Event) (w : World) :
  run es initial = Some w ->
  Forall delay_ok (trace w).
Proof.
  intros Hrun.
  apply (run_invariant (fun w => Forall delay_ok (trace w)) delays_step
           es initial w); [constructor|done].
Qed.

Lemma timers_between_1s_and_3s_witness :
  exists w,
    run lane_run initial = Some w
    /\ Forall delay_ok (trace w)
    /\ In (SetTimeout 2000) (trace w)
    /\ In (SetTimeout 3000) (trace w).
Proof.
  destruct (run_total lane_run initial) as [w Hw].
  pose proof (timers_between_1s_and_3s lane_run w Hw) as Hd.
  assert (match run lane_run initial with
          | Some w => trace w
          | None => []
          end = [MusicPlay; OverlayHide; MusicPlay; SetTimeout 2000;
                 SetTimeout 3000; SetTimeout 3000; JumpSoundPlay]) as Ht
    by (vm_compute; reflexivity).
  rewrite Hw in Ht.
  exists w. split; [exact Hw|]. split; [exact Hd|].
  rewrite Ht. simpl. tauto.
Defined.

(** ** The stored speed *)

Lemma speed_inv_step (e : Event) (w w' : World) :
  speed_inv w -> step e w = Some w' -> speed_inv w'.
Proof.
  intros (s & Hs & Hv) He. destruct e; simpl in He.
  - destruct (Running_dec w) as [HR|HR].
    + pose proof (score_update w w' HR He) as Hsc.
      pose proof (speed_update w w' HR He) as Hsp.
      destruct (credits_from_bounds
                  (speed_of_score (score (gameState w))) (Bird.x (bird w))
                  (thrones w) 0) as [Hc _].
      exists (score (gameState w)). rewrite Hsc, Hsp. split; [lia|reflexivity].
    + rewrite update_not_Running in He by done. injection He as <-.
      by exists s.
  - injection He as <-. destruct (Running_dec w) as [HR|HR].
    + rewrite (jump_Running w HR). by exists s.
    + destruct (jump_restart w HR) as (Hg & _). unfold speed_inv.
      rewrite Hg. exists 0%Z. split; [simpl; lia|]. simpl. by vm_compute.
  - injection He as <-. destruct (spawnThrone_fields rnd w) as [Hg _].
    unfold speed_inv. rewrite Hg. by exists s.
Qed.

(** X13. The stored obstacle speed never runs ahead of the score: after
    any run from the start of the script [currentThroneSpeed] equals
    [12 + 0.1 * s] for some [s] with [0 <= s <= score], so the score is
    never negative and the stored speed is at most the speed that the
    current score gives. *)
Theorem speed_lags_score (es : list Event) (w : World) :
  run es initial = Some w ->
  (exists s, (0 <= s <= score (gameState w))%Z
             /\ currentThroneSpeed (gameState w) == speed_of_score s)
  /\ currentThroneSpeed (gameState w) <= speed_of_score (score (gameState w)).
Proof.
  intros Hrun.
  assert (speed_inv w) as (s & Hs & Hv).
  { apply (run_invariant speed_inv speed_inv_step es initial w); [|done].
    exists 0%Z. split; [simpl; lia|]. simpl. by vm_compute. }
  split; [by exists s|].
  rewrite Hv. unfold speed_of_score, SPEED_INCREASE_RATE.
  assert (inject_Z s <= inject_Z (score (gameState w))) as Hle
    by (rewrite <- Zle_Qle; lia).
  lra.
Qed.

Lemma speed_lags_score_witness :
  exists w,
    run lane_run initial = Some w
    /\ currentThroneSpeed (gameState w) <= speed_of_score (score (gameState w)).
Proof.
  destruct (run_total lane_run initial) as [w Hw].
  exists w. split; [exact Hw|].
  exact (proj2 (speed_lags_score lane_run w Hw)).
Defined.
